(** * SoapToRest: the WSDL-to-OpenAPI pipeline of [app.py]

    A shallow embedding of the schema compiler ([map_xsd_to_json_type],
    [zeep_type_to_json_schema]), of the session state and its transitions
    ([restart_process], the edit stage and the assembly of the OpenAPI
    document), and of the JSON text the edit stage writes and reads back.

    Python values are modelled as follows.
    - A [str] is a [string]; its characters are code points below 256.
    - A JSON-shaped value ([dict] with [str] keys, [list], [str], [int],
      [bool], [None]) is a [json]; a [dict] keeps its insertion order, so
      it is an association list updated with [dict_set].
    - An exception is a [Raise] result; [try]/[except Exception] is a match
      on the result.
    - The interpreter's recursion limit is the [depth] argument of the
      compiler: a call with no frame left raises [RecursionError]. *)

From Stdlib Require Import String Ascii List ZArith Bool Arith Lia DecimalString.
Import ListNotations.
Local Open Scope string_scope.
Local Open Scope nat_scope.
Local Open Scope list_scope.

(* ===================================================================== *)
(** ** Python values *)
(* ===================================================================== *)

(** The exception classes the pipeline can meet. *)
Inductive exn : Type :=
| RecursionError
| AttributeError
| ValueError
| JSONDecodeError.

(** The outcome of evaluating an expression: a value or a raised exception. *)
Inductive result (A : Type) : Type :=
| Ok (a : A)
| Raise (e : exn).

Arguments Ok {A} a.
Arguments Raise {A} e.

Definition bind {A B : Type} (r : result A) (k : A -> result B) : result B :=
  match r with
  | Ok a => k a
  | Raise e => Raise e
  end.

Notation "x <- c ;; k" := (bind c (fun x => k))
  (at level 61, c at next level, right associativity).
Notation "' pat <- c ;; k" := (bind c (fun x => match x with pat => k end))
  (at level 61, pat pattern, c at next level, right associativity).

(** JSON-shaped Python values. *)
#[warnings="-register-all"]
Inductive json : Type :=
| JNull
| JBool (b : bool)
| JInt (z : Z)
| JStr (s : string)
| JArr (items : list json)
| JObj (members : list (string * json)).

(** A [dict] with [str] keys, in insertion order. *)
Definition dict (V : Type) : Type := list (string * V).

(** [d.get(k)]. *)
Fixpoint dict_get {V : Type} (k : string) (d : dict V) : option V :=
  match d with
  | [] => None
  | (k', v) :: d' => if String.eqb k k' then Some v else dict_get k d'
  end.

(** [d[k] = v]: an existing key keeps its place and takes the new value, a
    new key goes to the end. *)
Fixpoint dict_set {V : Type} (k : string) (v : V) (d : dict V) : dict V :=
  match d with
  | [] => [(k, v)]
  | (k', v') :: d' =>
      if String.eqb k k' then (k', v) :: d' else (k', v') :: dict_set k v d'
  end.

Definition keys {V : Type} (d : dict V) : list string := map fst d.


(* ===================================================================== *)
(** ** 1. Core logic: XSD to JSON Schema *)
(* ===================================================================== *)

(** [c.lower()] on one character: the letters A-Z, and the capital letters
    of the Latin-1 range (code points 192 to 222, the multiplication sign 215
    apart), move 32 places up. *)
Definition lower_ascii (c : ascii) : ascii :=
  let n := nat_of_ascii c in
  if ((65 <=? n) && (n <=? 90))
     || ((192 <=? n) && (n <=? 222) && negb (n =? 215))
  then ascii_of_nat (n + 32) else c.

(** [s.lower()]. *)
Fixpoint lower (s : string) : string :=
  match s with
  | EmptyString => EmptyString
  | String c s' => String (lower_ascii c) (lower s')
  end.

(** [x in s] on strings: [x] occurs in [s] as a contiguous substring. *)
Fixpoint contains (x s : string) : bool :=
  if prefix x s then true
  else match s with
       | EmptyString => false
       | String _ s' => contains x s'
       end.

(** [any(x in s for x in xs)]. *)
Definition any_in (xs : list string) (s : string) : bool :=
  existsb (fun x => contains x s) xs.

Definition integer_schema : json := JObj [("type", JStr "integer")].
Definition number_schema : json := JObj [("type", JStr "number")].
Definition boolean_schema : json := JObj [("type", JStr "boolean")].
Definition date_time_schema : json :=
  JObj [("type", JStr "string"); ("format", JStr "date-time")].
Definition string_schema : json := JObj [("type", JStr "string")].

(** [map_xsd_to_json_type(xsd_type_name)], applied to [str(xsd_type_name)]. *)
Definition map_xsd_to_json_type (xsd_type_name : string) : json :=
  let xtype := lower xsd_type_name in
  if any_in ["int"; "long"; "short"; "integer"] xtype then integer_schema
  else if any_in ["decimal"; "float"; "double"; "number"] xtype then number_schema
  else if contains "boolean" xtype then boolean_schema
  else if contains "datetime" xtype || contains "date" xtype then date_time_schema
  else string_schema.

(** *** The type graph handed over by the WSDL parser

    A type object is reached through its identity; [graph] gives the object
    behind each identity, so a type may refer to itself. *)
Definition tid : Type := nat.

(** A value of [min_occurs] or [max_occurs]: [None], an [int], the string
    ['unbounded'], or some other non-numeric, non-empty string. *)
Inductive occurs : Type :=
| OccNone
| OccInt (n : Z)
| OccUnbounded
| OccWord.

(** A child element: [element.type] ([None] for Python's [None]),
    [element.max_occurs] and [element.min_occurs]. *)
Record element : Type := {
  el_type : option tid;
  max_occurs : occurs;
  min_occurs : occurs
}.

(** An attribute object: [attr_obj.type], given by the text [str] makes of
    it, or an object that has no [type] field. *)
Inductive attribute : Type :=
| Attribute (type_name : string)
| NoTypeAttribute.

(** A type object: the text [str] makes of it, and what
    [getattr(zeep_type, 'elements', [])] and
    [getattr(zeep_type, 'attributes', [])] return. *)
Record zeep_type : Type := {
  name : string;
  elements : list (string * element);
  attributes : list (string * attribute)
}.

Definition graph : Type := tid -> zeep_type.

(** Python's truth value of an [occurs]. *)
Definition occurs_truthy (o : occurs) : bool :=
  match o with
  | OccNone => false
  | OccInt n => negb (n =? 0)%Z
  | OccUnbounded | OccWord => true
  end.

(** [int(o)] on a truthy value: a string that is no number raises. *)
Definition occurs_int (o : occurs) : result Z :=
  match o with
  | OccInt n => Ok n
  | _ => Raise ValueError
  end.

(** Line 50: [max_occurs and (max_occurs == 'unbounded' or
    (isinstance(max_occurs, int) and max_occurs > 1))]. *)
Definition is_repeated (o : occurs) : bool :=
  occurs_truthy o &&
  match o with
  | OccUnbounded => true
  | OccInt n => (1 <? n)%Z
  | _ => false
  end.

(** Line 55: [min_occurs and int(min_occurs) > 0]. *)
Definition is_required (o : occurs) : result bool :=
  if occurs_truthy o then n <- occurs_int o ;; Ok (0 <? n)%Z
  else Ok false.

(** [attr_obj.type], passed through [str] by the mapper. *)
Definition attribute_type (a : attribute) : result string :=
  match a with
  | Attribute type_name => Ok type_name
  | NoTypeAttribute => Raise AttributeError
  end.

Definition array_schema (items : json) : json :=
  JObj [("type", JStr "array"); ("items", items)].

Definition empty_object_schema : json :=
  JObj [("type", JStr "object"); ("properties", JObj [])].

Definition value_schema : json :=
  JObj [("type", JStr "string");
        ("description", JStr "The text content of the element")].

(** Lines 65-68: the object schema, with ["required"] only when the list is
    not empty. *)
Definition object_schema (properties : dict json) (required : list string) : json :=
  let schema := [("type", JStr "object"); ("properties", JObj properties)] in
  match required with
  | [] => JObj schema
  | _ => JObj (dict_set "required" (JArr (map JStr required)) schema)
  end.

(** Lines 43-44: one turn of the loop over the attributes. *)
Definition attribute_step (properties : dict json) (item : string * attribute)
  : result (dict json) :=
  let '(attr_name, attr_obj) := item in
  ty <- attribute_type attr_obj ;;
  Ok (dict_set attr_name (map_xsd_to_json_type ty) properties).

(** Lines 47-56: one turn of the loop over the child elements; [compile] is
    the recursive call. *)
Definition element_step (compile : option tid -> result json)
  (st : dict json * list string) (item : string * element)
  : result (dict json * list string) :=
  let '(properties, required) := st in
  let '(name, element) := item in
  child_schema <- compile (el_type element) ;;
  let properties :=
    if is_repeated (max_occurs element)
    then dict_set name (array_schema child_schema) properties
    else dict_set name child_schema properties in
  req <- is_required (min_occurs element) ;;
  Ok (properties, if req then required ++ [name] else required).

(** A [for] loop whose body may raise: the first exception ends it. *)
Definition for_each {St X : Type} (body : St -> X -> result St) (xs : list X) (init : St)
  : result St :=
  fold_left (fun acc x => s <- acc ;; body s x) xs (Ok init).

(** Lines 41-60, the body of the [try]. *)
Definition complex_body (compile : option tid -> result json) (zt : zeep_type)
  : result (dict json * list string) :=
  properties <- for_each attribute_step (attributes zt) [] ;;
  '(properties, required) <- for_each (element_step compile) (elements zt) (properties, []) ;;
  match attributes zt, elements zt with
  | _ :: _, [] => Ok (dict_set "_value" value_schema properties, required)
  | _, _ => Ok (properties, required)
  end.

(** [zeep_type_to_json_schema(zeep_type)], run with [depth] frames left on
    the interpreter's stack. Entering the function takes one frame; with
    none left the call raises [RecursionError]. *)
Fixpoint zeep_type_to_json_schema (depth : nat) (g : graph) (zeep_type : option tid)
  : result json :=
  match depth with
  | O => Raise RecursionError
  | S depth' =>
      match zeep_type with
      | None => Ok empty_object_schema
      | Some t =>
          let zt := g t in
          match elements zt, attributes zt with
          | [], [] => Ok (map_xsd_to_json_type (name zt))
          | _, _ =>
              match complex_body (zeep_type_to_json_schema depth' g) zt with
              | Ok (properties, required) => Ok (object_schema properties required)
              | Raise _ => Ok string_schema
              end
          end
      end
  end.

(* ===================================================================== *)
(** ** 2. Session state management *)
(* ===================================================================== *)

(** One entry of [op_data]. *)
Record op_info : Type := {
  request : json;
  response : json;
  include : bool;
  tag : string
}.

(** [st.session_state]: the keys the script sets. *)
Record session_state : Type := {
  step : string;
  op_data : dict op_info;
  final_spec : option json
}.

(** Lines 72-77: the state of a fresh session. *)
Definition initial_state : session_state :=
  {| step := "upload"; op_data := []; final_spec := None |}.

(** [restart_process()]. *)
Definition restart_process (st : session_state) : session_state :=
  {| step := "upload"; op_data := []; final_spec := None |}.

(* ===================================================================== *)
(** ** 3. The script: parsing, editing, assembling *)
(* ===================================================================== *)

(** What the parsed WSDL exposes: each service has a name and ports, each
    port the operations of its binding, each operation a name and the types
    of its input and output bodies ([None] when it has none). *)
Record operation : Type := {
  op_name : string;
  req_type : option tid;
  res_type : option tid
}.

Record service : Type := {
  service_name : string;
  ports : list (list operation)
}.

Record client : Type := {
  types : graph;
  services : list service
}.

(** Lines 130-138: the entry of one operation. *)
Definition extract_op (depth : nat) (g : graph) (tag : string)
  (extracted_ops : dict op_info) (op : operation) : result (dict op_info) :=
  request <- zeep_type_to_json_schema depth g (req_type op) ;;
  response <- zeep_type_to_json_schema depth g (res_type op) ;;
  Ok (dict_set (op_name op)
        {| request := request; response := response; include := true; tag := tag |}
        extracted_ops).

(** Lines 126-138: the three nested loops. *)
Definition extract_ops (depth : nat) (c : client) : result (dict op_info) :=
  for_each
    (fun ops sv =>
       for_each
         (fun ops port => for_each (extract_op depth (types c) (service_name sv)) port ops)
         (ports sv) ops)
    (services c) [].

(** Lines 121-147: the parse button. [Client(main_path)] gives the parsed
    WSDL or raises; any exception leaves the state as it was. *)
Definition parse_operations (depth : nat) (loaded : result client) (st : session_state)
  : session_state :=
  match (c <- loaded ;; extract_ops depth c) with
  | Ok extracted_ops =>
      {| step := "edit"; op_data := extracted_ops; final_spec := final_spec st |}
  | Raise _ => st
  end.

(** What the three widgets of one operation return in a run of the script:
    the checkbox and the two text areas. *)
Record widgets : Type := {
  is_included : bool;
  req_json : string;
  res_json : string
}.

(** Lines 172-178: the body of the [try]; [loads] is [json.loads]. *)
Definition parsed_entry (loads : string -> result json) (w : widgets) (info : op_info)
  : result op_info :=
  req <- loads (req_json w) ;;
  res <- loads (res_json w) ;;
  Ok {| request := req; response := res; include := is_included w; tag := tag info |}.

(** Lines 157-181: one turn of the loop over [current_data.items()]. The
    second component collects the [st.error] calls, each by the operation
    name and the exception it formats. *)
Definition edit_step (loads : string -> result json) (ui : string -> widgets)
  (st : dict op_info * list (string * exn)) (item : string * op_info)
  : dict op_info * list (string * exn) :=
  let '(updated_data, errors) := st in
  let '(op_name, info) := item in
  match parsed_entry loads (ui op_name) info with
  | Ok entry => (dict_set op_name entry updated_data, errors)
  | Raise e => (dict_set op_name info updated_data, errors ++ [(op_name, e)])
  end.

(** Lines 154-181: [updated_data] and the errors shown, for the widgets' values
    [ui], keyed by operation name. *)
Definition edit_stage (loads : string -> result json) (ui : string -> widgets)
  (current_data : dict op_info) : dict op_info * list (string * exn) :=
  fold_left (edit_step loads ui) current_data ([], []).

Definition json_content (schema : json) : json :=
  JObj [("application/json", JObj [("schema", schema)])].

(** Lines 197-211: the value stored under one path. *)
Definition path_item (name : string) (data : op_info) : json :=
  JObj [("post",
         JObj [("tags", JArr [JStr (tag data)]);
               ("summary", JStr name);
               ("requestBody", JObj [("content", json_content (request data))]);
               ("responses",
                JObj [("200",
                       JObj [("description", JStr "Success");
                             ("content", json_content (response data))])])])].

(** Lines 195-211: the loop that fills [openapi_spec["paths"]]. *)
Definition build_paths (updated_data : dict op_info) : dict json :=
  fold_left
    (fun paths (item : string * op_info) =>
       let '(name, data) := item in
       if include data then dict_set ("/" ++ name)%string (path_item name data) paths
       else paths)
    updated_data [].

(** Lines 185-211: the final document. *)
Definition openapi_spec (updated_data : dict op_info) : json :=
  JObj [("openapi", JStr "3.0.0");
        ("info",
         JObj [("title", JStr "Restructured REST API");
               ("version", JStr "1.0.0");
               ("description", JStr "Auto-generated REST facade from SOAP WSDL.")]);
        ("paths", JObj (build_paths updated_data))].

(** What the user does in one run of the script. *)
Inductive event : Type :=
| StartNewProject
| ParseOperations (depth : nat) (loaded : result client)
| GenerateSwagger (ui : string -> widgets)
| BackToEditor
| NoClick.

(** One run of the script. The sidebar button is handled first, whatever the
    step; the other buttons exist only in the branch of their step. *)
Definition run (loads : string -> result json) (ev : event) (st : session_state)
  : session_state :=
  match ev with
  | StartNewProject => restart_process st
  | _ =>
      if String.eqb (step st) "upload" then
        match ev with
        | ParseOperations depth loaded => parse_operations depth loaded st
        | _ => st
        end
      else if String.eqb (step st) "edit" then
        match ev with
        | GenerateSwagger ui =>
            {| step := "visualize";
               op_data := op_data st;
               final_spec := Some (openapi_spec (fst (edit_stage loads ui (op_data st)))) |}
        | _ => st
        end
      else if String.eqb (step st) "visualize" then
        match ev with
        | BackToEditor =>
            {| step := "edit"; op_data := op_data st; final_spec := final_spec st |}
        | _ => st
        end
      else st
  end.

(* ===================================================================== *)
(** ** 4. The JSON text of the edit stage *)
(* ===================================================================== *)

(** The text areas of the edit stage show [json.dumps(value, indent=2)] and
    what they return goes through [json.loads]. Both belong to Python's
    library; they are given here, for the values of [json], as the writer and
    the decoder of the JSON grammar. The writers take the text that follows
    as their last argument. Left out: numbers with a fraction or an exponent
    and the literals [NaN] and [Infinity] (a float has no value in [json]),
    escapes of code points above 255, and the limit the interpreter puts on
    the nesting the library can walk. *)

Definition dquote : ascii := "034"%char.
Definition backslash : ascii := "092"%char.
Definition newline : ascii := "010"%char.

(** One lower-case hexadecimal digit. *)
Definition hex_digit (n : nat) : ascii :=
  if n <? 10 then ascii_of_nat (48 + n) else ascii_of_nat (87 + n).

(** The encoder's replacement of one character ([ensure_ascii] is on): the
    quote, the backslash and the characters outside the range from the space
    to the tilde are escaped. *)
Definition escape_char (c : ascii) : string :=
  let n := nat_of_ascii c in
  if n =? 34 then String backslash (String dquote "")
  else if n =? 92 then String backslash (String backslash "")
  else if n =? 10 then String backslash "n"
  else if n =? 13 then String backslash "r"
  else if n =? 9 then String backslash "t"
  else if n =? 8 then String backslash "b"
  else if n =? 12 then String backslash "f"
  else if (n <? 32) || (126 <? n) then
    String backslash
      (String "u" (String "0" (String "0"
        (String (hex_digit (n / 16)) (String (hex_digit (n mod 16)) "")))))
  else String c "".

Fixpoint escape (s : string) (rest : string) : string :=
  match s with
  | EmptyString => rest
  | String c s' => (escape_char c ++ escape s' rest)%string
  end.

(** A string between quotes. *)
Definition encode_string (s : string) (rest : string) : string :=
  String dquote (escape s (String dquote rest)).

Fixpoint spaces (n : nat) (rest : string) : string :=
  match n with
  | O => rest
  | S n' => String " " (spaces n' rest)
  end.

(** A line break and the indentation of a nesting level, two spaces each. *)
Definition newline_indent (level : nat) (rest : string) : string :=
  String newline (spaces (2 * level) rest).

(** The text of a value that stands at nesting [level]. A container that is
    not empty puts each item on a line of its own, one level deeper, with a
    comma after every item but the last, and closes on a line at its own
    level; a key and its value are separated by a colon and a space. *)
Fixpoint dumps_at (level : nat) (j : json) (rest : string) : string :=
  match j with
  | JNull => ("null" ++ rest)%string
  | JBool true => ("true" ++ rest)%string
  | JBool false => ("false" ++ rest)%string
  | JInt z => (NilZero.string_of_int (Z.to_int z) ++ rest)%string
  | JStr s => encode_string s rest
  | JArr [] => ("[]" ++ rest)%string
  | JArr (x :: xs) =>
      String "["
        (newline_indent (S level)
          (dumps_at (S level) x
            (fold_right
               (fun y more =>
                  String "," (newline_indent (S level) (dumps_at (S level) y more)))
               (newline_indent level (String "]" rest)) xs)))
  | JObj [] => ("{}" ++ rest)%string
  | JObj (kv :: ms) =>
      String "{"
        (newline_indent (S level)
          (encode_string (fst kv) (String ":" (String " "
            (dumps_at (S level) (snd kv)
              (fold_right
                 (fun kv' more =>
                    String ","
                      (newline_indent (S level)
                        (encode_string (fst kv') (String ":" (String " "
                          (dumps_at (S level) (snd kv') more))))))
                 (newline_indent level (String "}" rest)) ms))))))
  end.

(** [json.dumps(j, indent=2)]. *)
Definition json_dumps (j : json) : string := dumps_at 0 j "".

(** The decoder's white space: space, tab, line feed, carriage return. *)
Definition is_space (c : ascii) : bool :=
  let n := nat_of_ascii c in
  (n =? 32) || (n =? 9) || (n =? 10) || (n =? 13).

Fixpoint skip_ws (s : string) : string :=
  match s with
  | EmptyString => EmptyString
  | String c s' => if is_space c then skip_ws s' else s
  end.

(** The value of a hexadecimal digit, in either case. *)
Definition hex_value (c : ascii) : option nat :=
  let n := nat_of_ascii c in
  if (48 <=? n) && (n <=? 57) then Some (n - 48)
  else if (97 <=? n) && (n <=? 102) then Some (n - 87)
  else if (65 <=? n) && (n <=? 70) then Some (n - 55)
  else None.

Definition hex4 (a b c d : ascii) : option nat :=
  match hex_value a, hex_value b, hex_value c, hex_value d with
  | Some x, Some y, Some z, Some w => Some (((x * 16 + y) * 16 + z) * 16 + w)
  | _, _, _, _ => None
  end.

(** The character a one-letter escape stands for. *)
Definition unescape (c : ascii) : option ascii :=
  let n := nat_of_ascii c in
  if n =? 34 then Some dquote
  else if n =? 92 then Some backslash
  else if n =? 47 then Some "/"%char
  else if n =? 98 then Some "008"%char
  else if n =? 102 then Some "012"%char
  else if n =? 110 then Some "010"%char
  else if n =? 114 then Some "013"%char
  else if n =? 116 then Some "009"%char
  else None.

Definition push (c : ascii) (r : result (string * string)) : result (string * string) :=
  '(s, rest) <- r ;; Ok (String c s, rest).

(** The decoder's string scanner, started after the opening quote: the
    decoded string and the text after the closing quote. A raw control
    character, an unknown escape and a missing closing quote raise. An escape
    of a code point above 255 has no value in [string] and is reported alike. *)
Fixpoint scan_string (s : string) : result (string * string) :=
  match s with
  | EmptyString => Raise JSONDecodeError
  | String c s1 =>
      if Ascii.eqb c dquote then Ok (EmptyString, s1)
      else if Ascii.eqb c backslash then
        match s1 with
        | EmptyString => Raise JSONDecodeError
        | String esc s2 =>
            if Ascii.eqb esc "u" then
              match s2 with
              | String h1 (String h2 (String h3 (String h4 s3))) =>
                  match hex4 h1 h2 h3 h4 with
                  | Some n =>
                      if n <? 256 then push (ascii_of_nat n) (scan_string s3)
                      else Raise JSONDecodeError
                  | None => Raise JSONDecodeError
                  end
              | _ => Raise JSONDecodeError
              end
            else
              match unescape esc with
              | Some ch => push ch (scan_string s2)
              | None => Raise JSONDecodeError
              end
        end
      else if nat_of_ascii c <? 32 then Raise JSONDecodeError
      else push c (scan_string s1)
  end.

Definition digit_value (c : ascii) : option Z :=
  let n := nat_of_ascii c in
  if (48 <=? n) && (n <=? 57) then Some (Z.of_nat (n - 48)) else None.

Definition is_digit (c : ascii) : bool :=
  match digit_value c with Some _ => true | None => false end.

Fixpoint scan_digits (acc : Z) (s : string) : Z * string :=
  match s with
  | EmptyString => (acc, s)
  | String c s' =>
      match digit_value c with
      | Some d => scan_digits (10 * acc + d) s'
      | None => (acc, s)
      end
  end.

(** The text goes on with a fraction or an exponent, which makes the number
    a float. *)
Definition float_tail (s : string) : bool :=
  match s with
  | String "." (String c _) => is_digit c
  | String e (String c rest) =>
      (Ascii.eqb e "e" || Ascii.eqb e "E") &&
      (is_digit c ||
       ((Ascii.eqb c "+" || Ascii.eqb c "-") &&
        match rest with String c' _ => is_digit c' | EmptyString => false end))
  | _ => false
  end.

(** The decoder's number: an optional minus sign, then a zero or a digit
    from 1 to 9 followed by digits. A float has no value in [json] and is
    reported like a malformed text. *)
Definition scan_number (s : string) : result (Z * string) :=
  let '(negative, s1) :=
    match s with
    | String "-" s' => (true, s')
    | _ => (false, s)
    end in
  match s1 with
  | EmptyString => Raise JSONDecodeError
  | String c s2 =>
      match digit_value c with
      | None => Raise JSONDecodeError
      | Some d =>
          let '(n, rest) := if (d =? 0)%Z then (0%Z, s2) else scan_digits d s2 in
          if float_tail rest then Raise JSONDecodeError
          else Ok (if negative then (- n)%Z else n, rest)
      end
  end.

(** The three literals. *)
Definition scan_literal (s : string) : option (json * string) :=
  match s with
  | String "n" (String "u" (String "l" (String "l" rest))) => Some (JNull, rest)
  | String "t" (String "r" (String "u" (String "e" rest))) => Some (JBool true, rest)
  | String "f" (String "a" (String "l" (String "s" (String "e" rest)))) =>
      Some (JBool false, rest)
  | _ => None
  end.

(** The decoder, at the first character of a value, of a key or of an item;
    [fuel] bounds the number of values, members and items it reads. *)
Fixpoint parse_value (fuel : nat) (s : string) : result (json * string) :=
  match fuel with
  | O => Raise JSONDecodeError
  | S fuel' =>
      match s with
      | EmptyString => Raise JSONDecodeError
      | String c s1 =>
          if Ascii.eqb c dquote then
            '(str, rest) <- scan_string s1 ;; Ok (JStr str, rest)
          else if Ascii.eqb c "{" then
            match skip_ws s1 with
            | EmptyString => Raise JSONDecodeError
            | String c' s2 =>
                if Ascii.eqb c' "}" then Ok (JObj [], s2)
                else parse_members fuel' [] (String c' s2)
            end
          else if Ascii.eqb c "[" then
            match skip_ws s1 with
            | EmptyString => Raise JSONDecodeError
            | String c' s2 =>
                if Ascii.eqb c' "]" then Ok (JArr [], s2)
                else parse_items fuel' [] (String c' s2)
            end
          else
            match scan_literal s with
            | Some found => Ok found
            | None => '(n, rest) <- scan_number s ;; Ok (JInt n, rest)
            end
      end
  end
with parse_members (fuel : nat) (pairs : dict json) (s : string) : result (json * string) :=
  match fuel with
  | O => Raise JSONDecodeError
  | S fuel' =>
      match s with
      | EmptyString => Raise JSONDecodeError
      | String c s1 =>
          if Ascii.eqb c dquote then
            '(key, r1) <- scan_string s1 ;;
            match skip_ws r1 with
            | String ":" r2 =>
                '(value, r3) <- parse_value fuel' (skip_ws r2) ;;
                let pairs := dict_set key value pairs in
                match skip_ws r3 with
                | String "}" r4 => Ok (JObj pairs, r4)
                | String "," r4 => parse_members fuel' pairs (skip_ws r4)
                | _ => Raise JSONDecodeError
                end
            | _ => Raise JSONDecodeError
            end
          else Raise JSONDecodeError
      end
  end
with parse_items (fuel : nat) (values : list json) (s : string) : result (json * string) :=
  match fuel with
  | O => Raise JSONDecodeError
  | S fuel' =>
      '(value, r1) <- parse_value fuel' s ;;
      let values := values ++ [value] in
      match skip_ws r1 with
      | String "]" r2 => Ok (JArr values, r2)
      | String "," r2 => parse_items fuel' values (skip_ws r2)
      | _ => Raise JSONDecodeError
      end
  end.

(** [json.loads(s)]: one value, with white space around it and nothing
    after. *)
Definition json_loads (s : string) : result json :=
  '(value, rest) <- parse_value (S (String.length s)) (skip_ws s) ;;
  match skip_ws rest with
  | EmptyString => Ok value
  | _ => Raise JSONDecodeError
  end.


(* ===================================================================== *)
(** ** Reading the claims *)
(* ===================================================================== *)

(** [x] occurs in [s]: some text before it and some text after it make [s]. *)
Definition occurs_in (x s : string) : Prop :=
  exists before after : string, s = (before ++ x ++ after)%string.

(** The lower-cased name holds one of the keywords. *)
Definition mentions (keywords : list string) (type_name : string) : Prop :=
  exists k, In k keywords /\ occurs_in k (lower type_name).

Definition integer_family : list string := ["int"; "long"; "short"; "integer"].
Definition date_family : list string := ["datetime"; "date"].



(** The minimum occurrence is an integer greater than zero. *)
Definition min_positive (o : occurs) : bool :=
  match o with
  | OccInt n => (0 <? n)%Z
  | _ => false
  end.

(** The names of the elements with a minimum occurrence above zero, in the
    order of the elements. *)
Definition required_names (elems : list (string * element)) : list string :=
  map fst (filter (fun item => min_positive (min_occurs (snd item))) elems).




(** A type with child elements or attributes. *)
Definition complex (zt : zeep_type) : Prop :=
  elements zt <> [] \/ attributes zt <> [].

(** The type of the specification's example: a required element [a] of a
    primitive string type and an optional, unbounded element [b] of a
    primitive integer type. *)
Definition example_graph : graph :=
  fun t =>
    match t with
    | 0 => {| name := "Example";
              elements :=
                [("a", {| el_type := Some 1; max_occurs := OccInt 1; min_occurs := OccInt 1 |});
                 ("b", {| el_type := Some 2; max_occurs := OccUnbounded; min_occurs := OccInt 0 |})];
              attributes := [] |}
    | 1 => {| name := "xsd:string"; elements := []; attributes := [] |}
    | _ => {| name := "xsd:int"; elements := []; attributes := [] |}
    end.



(** A type whose only child element has the type itself. *)
Definition self_graph : graph :=
  fun _ =>
    {| name := "Node";
       elements :=
         [("child", {| el_type := Some 0; max_occurs := OccInt 1; min_occurs := OccInt 1 |})];
       attributes := [] |}.

(** [n] object schemas, each the only property of the one around it, about
    a string schema. *)
Fixpoint self_schema (n : nat) : json :=
  match n with
  | O => string_schema
  | S n' => object_schema [("child", self_schema n')] ["child"]
  end.

(** A type graph without cycles: the types of the child elements of a type
    have a smaller rank than the type, and a type with child elements has a
    rank above zero. *)
Definition ranked (g : graph) (rank : tid -> nat) : Prop :=
  forall t n e, In (n, e) (elements (g t)) ->
    match el_type e with
    | Some t' => rank t' < rank t
    | None => 0 < rank t
    end.






(** The entry the edit stage stores for one operation: the parsed
    submission, or the stored entry when a text does not parse. *)
Definition edited_entry (loads : string -> result json) (ui : string -> widgets)
  (op_name : string) (info : op_info) : op_info :=
  match parsed_entry loads (ui op_name) info with
  | Ok entry => entry
  | Raise _ => info
  end.

(** The value reached from [j] through the keys of [path]. *)
Fixpoint json_at (path : list string) (j : json) : option json :=
  match path with
  | [] => Some j
  | k :: path' =>
      match j with
      | JObj members =>
          match dict_get k members with
          | Some j' => json_at path' j'
          | None => None
          end
      | _ => None
      end
  end.

(** Two operations of one service, the second one excluded. *)
Definition example_ops : dict op_info :=
  [("A", {| request := string_schema; response := integer_schema;
            include := true; tag := "Service" |});
   ("B", {| request := string_schema; response := string_schema;
            include := false; tag := "Service" |})].

(** A submission for [A] whose request text is cut short, whose response
    text is a valid change and whose checkbox is cleared; [B] is untouched. *)
Definition broken_submission (op_name : string) : widgets :=
  if String.eqb op_name "A"
  then {| is_included := false; req_json := "{"; res_json := "{}" |}
  else {| is_included := false;
          req_json := json_dumps string_schema;
          res_json := json_dumps string_schema |}.


(** The operations that go into the document, in their order. *)
Definition included (data : dict op_info) : dict op_info :=
  filter (fun item => include (snd item)) data.

(** The path of an operation. *)
Definition path_of (name : string) : string := ("/" ++ name)%string.


(** The values whose text is read back as written: no number in them, and
    distinct keys in every dictionary (as in every Python [dict]). *)
Fixpoint schema_value (j : json) : Prop :=
  match j with
  | JInt _ => False
  | JArr items => fold_right (fun x rest => schema_value x /\ rest) True items
  | JObj members =>
      NoDup (keys members) /\
      fold_right (fun kv rest => schema_value (snd kv) /\ rest) True members
  | _ => True
  end.

(** The number of values, members and items of a value. *)
Fixpoint json_size (j : json) : nat :=
  match j with
  | JArr items => S (fold_right (fun x n => S (json_size x + n)) 0 items)
  | JObj members => S (fold_right (fun kv n => S (json_size (snd kv) + n)) 0 members)
  | _ => 1
  end.


(** The decoder, given fuel for the size of [v], reads the text of [v] back
    as [v] and stops where the text of [v] stops. *)
Definition reads_back (v : json) : Prop :=
  schema_value v ->
  forall level fuel rest,
    json_size v <= fuel -> parse_value fuel (dumps_at level v rest) = Ok (v, rest).

(** The text at least as long as the size, for the value and what follows. *)
Definition long_enough (v : json) : Prop :=
  forall level rest, json_size v + String.length rest <= String.length (dumps_at level v rest).


(* ===================================================================== *)
(** ** Reading the rest of the code *)
(* ===================================================================== *)

(** The keys of a dictionary once the key [k] is assigned: a key it has
    already keeps its place, a new one goes to the end. *)
Definition add_key (l : list string) (k : string) : list string :=
  if existsb (String.eqb k) l then l else l ++ [k].



(** The four primitive types of the mapper. *)
Definition primitive_type (ty : string) : bool :=
  existsb (String.eqb ty) ["integer"; "number"; "boolean"; "string"].

Definition is_text (j : json) : Prop := exists s, j = JStr s.

(** The shapes of a schema: a primitive type with text annotations (a
    format, a description), an array of a schema, or an object whose
    properties have distinct names and are schemas, with a required list,
    present only when it names something, that names properties only. *)
#[warnings="-register-all"]
Inductive json_schema : json -> Prop :=
| schema_primitive ty notes :
    primitive_type ty = true ->
    Forall (fun kv => is_text (snd kv)) notes ->
    json_schema (JObj (("type", JStr ty) :: notes))
| schema_array items :
    json_schema items ->
    json_schema (JObj [("type", JStr "array"); ("items", items)])
| schema_object props required :
    NoDup (keys props) ->
    Forall (fun kv => json_schema (snd kv)) props ->
    incl required (keys props) ->
    json_schema
      (JObj (("type", JStr "object") :: ("properties", JObj props) ::
             match required with
             | [] => []
             | _ :: _ => [("required", JArr (map JStr required))]
             end)).


(** The states the script can be in: the fresh session, and what a run of
    the script makes of one of them. *)
Inductive reachable (loads : string -> result json) : session_state -> Prop :=
| reachable_initial : reachable loads initial_state
| reachable_run ev st : reachable loads st -> reachable loads (run loads ev st).

(** The stored document, when there is one, is the assembly of the stored
    operations under some submission. *)
Definition document_of_stored (loads : string -> result json) (st : session_state) : Prop :=
  final_spec st = None \/
  exists ui, final_spec st = Some (openapi_spec (fst (edit_stage loads ui (op_data st)))).


(** A WSDL with one service and two ports that expose the same operation,
    as a SOAP 1.1 and a SOAP 1.2 binding do, over the example type. *)
Definition example_client : client :=
  {| types := example_graph;
     services :=
       [{| service_name := "Orders";
           ports :=
             [[{| op_name := "Submit"; req_type := Some 0; res_type := None |}];
              [{| op_name := "Submit"; req_type := Some 0; res_type := None |};
               {| op_name := "Cancel"; req_type := Some 1; res_type := Some 2 |}]] |}] |}.

(** A submission that holds, for every operation, the text of a string
    schema in both text areas and a set checkbox. *)
Definition string_submission (op_name : string) : widgets :=
  {| is_included := true;
     req_json := json_dumps string_schema;
     res_json := json_dumps string_schema |}.



(** Lines 162-170: the keys under which the three widgets of an operation
    keep their state. *)
Definition check_key (op_name : string) : string := ("check_" ++ op_name)%string.
Definition req_key (op_name : string) : string := ("req_" ++ op_name)%string.
Definition res_key (op_name : string) : string := ("res_" ++ op_name)%string.

(** The keys of all the widgets the edit stage draws, in the order it draws
    them. *)
Definition widget_keys (data : dict op_info) : list string :=
  flat_map (fun item => [check_key (fst item); req_key (fst item); res_key (fst item)]) data.

(* ===================================================================== *)
(** ** Facts about dictionaries *)
(* ===================================================================== *)

Section Dict.
Context {V : Type}.
Implicit Types (d : dict V) (k : string) (v : V).



Lemma keys_dict_set k v d :
  keys (dict_set k v d) = if existsb (String.eqb k) (keys d) then keys d else keys d ++ [k].
Proof.
  induction d as [|[k0 v0] d IH]; simpl; auto.
  destruct (String.eqb_spec k k0) as [->|]; simpl; auto.
  unfold keys in *. rewrite IH. now destruct (existsb _ _).
Qed.

Lemma existsb_eqb_In k (l : list string) : existsb (String.eqb k) l = true <-> In k l.
Proof.
  rewrite existsb_exists. split.
  - intros (x & Hin & E). apply String.eqb_eq in E. now subst.
  - intros Hin. exists k. split; auto. apply String.eqb_refl.
Qed.

Lemma in_keys_dict_set k k' v d :
  In k' (keys (dict_set k v d)) <-> k' = k \/ In k' (keys d).
Proof.
  rewrite keys_dict_set. destruct (existsb (String.eqb k) (keys d)) eqn:E.
  - apply existsb_eqb_In in E. split; [auto|]. intros [->|]; auto.
  - rewrite in_app_iff. simpl. intuition congruence.
Qed.

Lemma NoDup_keys_dict_set k v d : NoDup (keys d) -> NoDup (keys (dict_set k v d)).
Proof.
  intros H. rewrite keys_dict_set. destruct (existsb (String.eqb k) (keys d)) eqn:E; auto.
  assert (~ In k (keys d)) as Hk.
  { intros Hin. apply existsb_eqb_In in Hin. congruence. }
  clear E. induction (keys d) as [|x l IH]; simpl.
  - repeat constructor. auto.
  - inversion H; subst. constructor.
    + rewrite in_app_iff. simpl in *. intuition.
    + apply IH; auto. simpl in Hk. intuition.
Qed.

Lemma dict_set_fresh k v d : ~ In k (keys d) -> dict_set k v d = d ++ [(k, v)].
Proof.
  induction d as [|[k0 v0] d IH]; simpl; auto.
  intros Hk. destruct (String.eqb_spec k k0) as [->|]; [tauto|].
  rewrite IH; auto.
Qed.

Lemma dict_get_None k d : dict_get k d = None <-> ~ In k (keys d).
Proof.
  induction d as [|[k0 v0] d IH]; simpl; [tauto|].
  destruct (String.eqb_spec k k0) as [->|].
  - split; [discriminate|tauto].
  - rewrite IH. intuition congruence.
Qed.

Lemma dict_get_In k v d : dict_get k d = Some v -> In (k, v) d.
Proof.
  induction d as [|[k0 v0] d IH]; simpl; [discriminate|].
  destruct (String.eqb_spec k k0) as [->|]; [intros [= ->]; auto|auto].
Qed.

Lemma In_dict_get k v d : NoDup (keys d) -> In (k, v) d -> dict_get k d = Some v.
Proof.
  induction d as [|[k0 v0] d IH]; simpl; [tauto|].
  intros Hnd [[= -> ->]|Hin].
  - now rewrite String.eqb_refl.
  - inversion Hnd; subst. destruct (String.eqb_spec k k0) as [->|]; auto.
    exfalso. apply H1. change (In (fst (k0, v)) (map fst d)). now apply in_map.
Qed.
End Dict.

(* ===================================================================== *)
(** ** The primitive type mapper *)
(* ===================================================================== *)

Lemma prefix_occurs x s :
  prefix x s = true <-> exists after : string, s = (x ++ after)%string.
Proof.
  revert s. induction x as [|c x IH]; intros s; simpl.
  - destruct s; split; eauto.
  - destruct s as [|c' s]; simpl.
    + split; [discriminate|]. intros (a & H). discriminate.
    + destruct (Ascii.ascii_dec c c') as [->|Hne].
      * rewrite IH. split; intros (a & H); exists a; congruence.
      * split; [discriminate|]. intros (a & H). congruence.
Qed.

Lemma contains_unfold x s :
  contains x s =
  prefix x s || match s with EmptyString => false | String _ s' => contains x s' end.
Proof. destruct s; cbn [contains]; now destruct (prefix x _). Qed.

Lemma contains_occurs x s : contains x s = true <-> occurs_in x s.
Proof.
  unfold occurs_in. induction s as [|c s IH]; rewrite contains_unfold, orb_true_iff.
  - split.
    + intros [E|E]; [|discriminate]. apply prefix_occurs in E as (a & E). now exists "", a.
    + intros (b & a & H). left. apply prefix_occurs.
      destruct b; [|discriminate]. eauto.
  - rewrite IH. split.
    + intros [E|(b & a & ->)].
      * apply prefix_occurs in E as (a & E). now exists "", a.
      * now exists (String c b), a.
    + intros (b & a & H). destruct b as [|c' b]; simpl in H.
      * left. apply prefix_occurs. eauto.
      * right. injection H as _ ->. eauto.
Qed.

Lemma any_in_mentions keywords type_name :
  any_in keywords (lower type_name) = true <-> mentions keywords type_name.
Proof.
  unfold any_in, mentions. rewrite existsb_exists.
  split; intros (k & Hin & H); exists k; split; auto; now apply contains_occurs.
Qed.





(* ===================================================================== *)
(** ** The schema compiler *)
(* ===================================================================== *)

Section Loops.
Context {St X : Type} (body : St -> X -> result St).

Lemma for_each_from (xs : list X) (r : result St) :
  fold_left (fun acc x => s <- acc ;; body s x) xs r = (s <- r ;; for_each body xs s).
Proof.
  revert r. induction xs as [|x xs IH]; intros r.
  - now destruct r.
  - unfold for_each. simpl. rewrite IH. destruct r as [s|e]; simpl; [|reflexivity].
    now rewrite IH.
Qed.

Lemma for_each_cons (x : X) (xs : list X) (init : St) :
  for_each body (x :: xs) init = (s <- body init x ;; for_each body xs s).
Proof. unfold for_each at 1. simpl. apply for_each_from. Qed.

End Loops.

Lemma for_each_invariant {St X : Type} (P : St -> Prop) (body : St -> X -> result St) xs :
  (forall s x s', body s x = Ok s' -> P s -> P s') ->
  forall init s', for_each body xs init = Ok s' -> P init -> P s'.
Proof.
  intros Hbody. induction xs as [|x xs IH]; intros init s'.
  - now intros [= <-].
  - rewrite for_each_cons. destruct (body init x) as [s|] eqn:B; simpl; [|discriminate].
    intros H Hinit. apply (IH _ _ H). exact (Hbody _ _ _ B Hinit).
Qed.


Lemma is_required_ok o b : is_required o = Ok b -> b = min_positive o.
Proof.
  destruct o as [|n| |]; unfold is_required; simpl; try congruence.
  destruct (n =? 0)%Z eqn:E; simpl; [|congruence].
  intros [= <-]. symmetry. lia.
Qed.









(** The required list grows by the names of the elements with a positive
    minimum occurrence. *)
Lemma elements_required compile elems props req props' req' :
  for_each (element_step compile) elems (props, req) = Ok (props', req') ->
  req' = req ++ required_names elems.
Proof.
  revert props req. induction elems as [|[n el] elems IH]; intros props req.
  - intros [= <- <-]. unfold required_names. simpl. now rewrite app_nil_r.
  - rewrite for_each_cons. unfold element_step at 1. simpl.
    destruct (compile (el_type el)) as [child|]; simpl; [|discriminate].
    destruct (is_required (min_occurs el)) as [b|] eqn:R; simpl; [|discriminate].
    intros H. rewrite (IH _ _ H). apply is_required_ok in R. subst b.
    unfold required_names. simpl.
    destruct (min_positive (min_occurs el)); simpl; [now rewrite <- app_assoc|reflexivity].
Qed.




(** What the compiler returns for a type with elements or attributes. *)
Lemma compile_complex d g t :
  complex (g t) ->
  zeep_type_to_json_schema (S d) g (Some t) =
  match complex_body (zeep_type_to_json_schema d g) (g t) with
  | Ok (properties, required) => Ok (object_schema properties required)
  | Raise _ => Ok string_schema
  end.
Proof.
  intros [H|H]; simpl; destruct (elements (g t)), (attributes (g t)); congruence.
Qed.






(** The loops store at most one property per name. *)
Lemma attributes_NoDup attrs init props :
  for_each attribute_step attrs init = Ok props -> NoDup (keys init) -> NoDup (keys props).
Proof.
  revert init. induction attrs as [|[n a] attrs IH]; intros init.
  - now intros [= <-].
  - rewrite for_each_cons. destruct a; simpl; [|discriminate].
    intros H Hnd. apply (IH _ H). now apply NoDup_keys_dict_set.
Qed.

Lemma elements_NoDup compile elems props req props' req' :
  for_each (element_step compile) elems (props, req) = Ok (props', req') ->
  NoDup (keys props) -> NoDup (keys props').
Proof.
  revert props req. induction elems as [|[n el] elems IH]; intros props req.
  - now intros [= <- <-].
  - rewrite for_each_cons. unfold element_step at 1. simpl.
    destruct (compile (el_type el)) as [child|]; simpl; [|discriminate].
    destruct (is_required (min_occurs el)) as [b|]; simpl; [|discriminate].
    intros H Hnd. apply (IH _ _ H).
    destruct (is_repeated (max_occurs el)); now apply NoDup_keys_dict_set.
Qed.

Lemma complex_body_NoDup compile zt props req :
  complex_body compile zt = Ok (props, req) -> NoDup (keys props).
Proof.
  unfold complex_body.
  destruct (for_each attribute_step (attributes zt) []) as [aprops|] eqn:A; simpl;
    [|discriminate].
  destruct (for_each (element_step compile) (elements zt) (aprops, [])) as [[p r]|] eqn:E;
    simpl; [|discriminate].
  assert (NoDup (keys p)) as Hp.
  { apply (elements_NoDup _ _ _ _ _ _ E). apply (attributes_NoDup _ _ _ A). constructor. }
  destruct (attributes zt), (elements zt); intros [= <- <-]; auto.
  now apply NoDup_keys_dict_set.
Qed.








(** *** The depth of the compiled schema *)









(** *** Type graphs without cycles *)




(** The example type of the specification has no cycle. *)
Example example_graph_ranked :
  ranked example_graph (fun t => match t with 0 => 1 | _ => 0 end).
Proof.
  intros [|[|t]] n e; simpl; try tauto.
  intros [[= <- <-]|[[= <- <-]|[]]]; simpl; lia.
Qed.





(* ===================================================================== *)
(** ** The session: restart, edit stage, assembly *)
(* ===================================================================== *)

(** C7. Whatever the step, the stored operations and the stored document,
    a run of the script in which the restart button is pressed leaves the
    step at the upload stage, no operation and no document. *)
Theorem restart_from_any_state :
  forall (loads : string -> result json) (st : session_state),
    step (run loads StartNewProject st) = "upload" /\
    op_data (run loads StartNewProject st) = [] /\
    final_spec (run loads StartNewProject st) = None /\
    run loads StartNewProject st = restart_process st /\
    restart_process st = initial_state.
Proof. intros loads st. repeat split. Qed.

Section EditStage.
Variable loads : string -> result json.

(** From a dictionary whose keys are apart from the keys still to come, the
    loop of the edit stage appends one entry per operation. *)
Lemma edit_loop ui data updated errors :
  NoDup (keys updated ++ keys data) ->
  fst (fold_left (edit_step loads ui) data (updated, errors)) =
  updated ++ map (fun item => (fst item, edited_entry loads ui (fst item) (snd item))) data.
Proof.
  revert updated errors. induction data as [|[k info] data IH]; intros updated errors Hnd.
  - simpl. now rewrite app_nil_r.
  - assert (~ In k (keys updated)) as Hk.
    { intros Hin. apply NoDup_app_remove_r in Hnd as Hu.
      clear - Hnd Hin. induction (keys updated) as [|x l IHl]; simpl in *; [tauto|].
      inversion Hnd; subst. destruct Hin as [->|Hin]; [|auto].
      apply H1. apply in_or_app. right. now left. }
    assert (forall x : op_info, NoDup (keys (updated ++ [(k, x)]) ++ keys data)) as Hnd'.
    { intros x. unfold keys in *. rewrite map_app. simpl. rewrite <- app_assoc. exact Hnd. }
    cbn [fold_left edit_step map fst snd]. unfold edited_entry at 1.
    destruct (parsed_entry loads (ui k) info) as [entry|e];
      rewrite dict_set_fresh by exact Hk; rewrite IH by apply Hnd';
      rewrite <- app_assoc; reflexivity.
Qed.

Lemma edit_stage_entries ui data :
  NoDup (keys data) ->
  fst (edit_stage loads ui data) =
  map (fun item => (fst item, edited_entry loads ui (fst item) (snd item))) data.
Proof. intros Hnd. unfold edit_stage. now rewrite edit_loop. Qed.

Lemma edit_stage_keys ui data :
  NoDup (keys data) -> keys (fst (edit_stage loads ui data)) = keys data.
Proof.
  intros Hnd. rewrite edit_stage_entries by exact Hnd. unfold keys.
  rewrite map_map. reflexivity.
Qed.

Lemma dict_get_map {V W : Type} (f : string -> V -> W) k (d : dict V) :
  dict_get k (map (fun item => (fst item, f (fst item) (snd item))) d) =
  option_map (f k) (dict_get k d).
Proof.
  induction d as [|[k' v] d IH]; simpl; auto.
  destruct (String.eqb_spec k k') as [->|]; auto.
Qed.

(** The entry of an operation after the edit stage. *)
Lemma edit_stage_get ui data op :
  NoDup (keys data) ->
  dict_get op (fst (edit_stage loads ui data)) =
  option_map (edited_entry loads ui op) (dict_get op data).
Proof.
  intros Hnd. rewrite edit_stage_entries by exact Hnd.
  apply (dict_get_map (edited_entry loads ui)).
Qed.

(** Every exception of the loop is shown, with the name of its operation. *)
Lemma edit_loop_errors ui data updated errors op info e :
  In (op, info) data -> parsed_entry loads (ui op) info = Raise e ->
  In (op, e) (snd (fold_left (edit_step loads ui) data (updated, errors))).
Proof.
  assert (Hkeep : forall data updated errors x,
             In x errors -> In x (snd (fold_left (edit_step loads ui) data (updated, errors)))).
  { clear. induction data as [|[k i] data IH]; intros updated errors x Hx; [exact Hx|].
    cbn [fold_left edit_step]. destruct (parsed_entry loads (ui k) i); apply IH; auto.
    apply in_or_app. now left. }
  revert updated errors. induction data as [|[k i] data IH]; intros updated errors; [intros []|].
  intros [[= -> ->]|Hin] He; cbn [fold_left edit_step].
  - rewrite He. apply Hkeep. apply in_or_app. right. now left.
  - destruct (parsed_entry loads (ui k) i); now apply IH.
Qed.

Lemma edited_entry_ext ui ui' op info :
  ui' op = ui op -> edited_entry loads ui' op info = edited_entry loads ui op info.
Proof. unfold edited_entry. now intros ->. Qed.

Lemma parsed_entry_fails w info :
  (exists e, loads (req_json w) = Raise e) \/ (exists e, loads (res_json w) = Raise e) ->
  exists e, parsed_entry loads w info = Raise e /\
            (loads (req_json w) = Raise e \/ loads (res_json w) = Raise e).
Proof.
  unfold parsed_entry. intros [[e H]|[e H]].
  - exists e. rewrite H. auto.
  - destruct (loads (req_json w)) as [req|e'] eqn:R; simpl.
    + exists e. rewrite H. auto.
    + exists e'. auto.
Qed.

Lemma parsed_entry_ok w info entry :
  parsed_entry loads w info = Ok entry ->
  loads (req_json w) = Ok (request entry) /\ loads (res_json w) = Ok (response entry) /\
  include entry = is_included w /\ tag entry = tag info.
Proof.
  unfold parsed_entry.
  destruct (loads (req_json w)) as [req|]; simpl; [|discriminate].
  destruct (loads (res_json w)) as [res|]; simpl; [|discriminate].
  intros [= <-]. auto.
Qed.

(** C5. When the request text or the response text submitted for an
    operation does not parse, the edit stage keeps the stored entry of that
    operation as it is and shows an error that carries the operation's name
    and the parser's exception. The entries of the other operations depend on
    their own submissions only. Every entry after the edit stage is a stored
    entry or is made of two values the parser returned, and the operations
    stored in the session are not written at all. *)
Theorem failed_edit_keeps_record ui data op info :
  NoDup (keys data) ->
  dict_get op data = Some info ->
  (exists e, loads (req_json (ui op)) = Raise e) \/
  (exists e, loads (res_json (ui op)) = Raise e) ->
  dict_get op (fst (edit_stage loads ui data)) = Some info /\
  (exists e, In (op, e) (snd (edit_stage loads ui data)) /\
             (loads (req_json (ui op)) = Raise e \/ loads (res_json (ui op)) = Raise e)) /\
  (forall ui' other,
     other <> op -> ui' other = ui other ->
     dict_get other (fst (edit_stage loads ui' data)) =
     dict_get other (fst (edit_stage loads ui data))) /\
  (forall other entry,
     dict_get other (fst (edit_stage loads ui data)) = Some entry ->
     exists stored,
       dict_get other data = Some stored /\
       (entry = stored \/
        (loads (req_json (ui other)) = Ok (request entry) /\
         loads (res_json (ui other)) = Ok (response entry)))) /\
  (forall st, op_data (run loads (GenerateSwagger ui) st) = op_data st).
Proof.
  intros Hnd Hget Hfail.
  destruct (parsed_entry_fails (ui op) info Hfail) as (e & He & Hwhich).
  split; [|split; [|split; [|split]]].
  - rewrite edit_stage_get, Hget by exact Hnd. simpl. unfold edited_entry. now rewrite He.
  - exists e. split; [|exact Hwhich].
    apply edit_loop_errors with (info := info); [|exact He]. now apply dict_get_In.
  - intros ui' other _ Hsame. rewrite !edit_stage_get by exact Hnd.
    destruct (dict_get other data); simpl; [|reflexivity].
    now rewrite (edited_entry_ext ui ui').
  - intros other entry. rewrite edit_stage_get by exact Hnd.
    destruct (dict_get other data) as [stored|]; simpl; [|discriminate].
    intros [= <-]. exists stored. split; [reflexivity|]. unfold edited_entry.
    destruct (parsed_entry loads (ui other) stored) as [entry|] eqn:P; [|now left].
    right. apply parsed_entry_ok in P. tauto.
  - intros st. unfold run.
    destruct (String.eqb (step st) "upload"); [reflexivity|].
    destruct (String.eqb (step st) "edit"); [reflexivity|].
    destruct (String.eqb (step st) "visualize"); reflexivity.
Qed.

End EditStage.

(** *** The assembled document *)

Lemma path_of_inj n m : path_of n = path_of m -> n = m.
Proof. unfold path_of. simpl. congruence. Qed.

Lemma keys_filter_In {V : Type} (f : string * V -> bool) (d : dict V) k :
  In k (keys (filter f d)) -> In k (keys d).
Proof.
  unfold keys. rewrite !in_map_iff. intros (x & <- & H). apply filter_In in H as [H _]. eauto.
Qed.

Lemma NoDup_keys_filter {V : Type} (f : string * V -> bool) (d : dict V) :
  NoDup (keys d) -> NoDup (keys (filter f d)).
Proof.
  induction d as [|[k v] d IH]; simpl; auto.
  intros H. inversion H; subst. destruct (f (k, v)); simpl; auto.
  constructor; auto. intros Hin. apply H2. exact (keys_filter_In f d k Hin).
Qed.

Lemma NoDup_paths (l : list string) : NoDup l -> NoDup (map path_of l).
Proof.
  induction 1 as [|x l Hx Hl IH]; simpl; constructor; auto.
  rewrite in_map_iff. intros (y & E & Hy). apply path_of_inj in E. now subst.
Qed.

(** The loop over the operations appends one path per included operation. *)
Lemma build_paths_loop data paths :
  NoDup (keys paths ++ map path_of (keys data)) ->
  fold_left
    (fun paths (item : string * op_info) =>
       let '(name, data) := item in
       if include data then dict_set ("/" ++ name)%string (path_item name data) paths
       else paths) data paths =
  paths ++ map (fun item => (path_of (fst item), path_item (fst item) (snd item)))
               (included data).
Proof.
  revert paths. induction data as [|[n d] data IH]; intros paths Hnd.
  - simpl. now rewrite app_nil_r.
  - cbn [fold_left]. unfold included. cbn [filter snd].
    assert (NoDup (keys paths ++ map path_of (keys data))) as Hrest.
    { simpl in Hnd. now apply NoDup_remove_1 in Hnd. }
    destruct (include d).
    + assert (~ In (path_of n) (keys paths)) as Hk.
      { simpl in Hnd. apply NoDup_remove_2 in Hnd. intros Hin. apply Hnd.
        apply in_or_app. now left. }
      fold (path_of n). rewrite dict_set_fresh by exact Hk. rewrite IH.
      * cbn [map fst snd]. now rewrite <- app_assoc.
      * unfold keys in *. rewrite map_app. simpl. rewrite <- app_assoc. exact Hnd.
    + now apply IH.
Qed.

Lemma build_paths_included data :
  NoDup (keys data) ->
  build_paths data =
  map (fun item => (path_of (fst item), path_item (fst item) (snd item))) (included data).
Proof.
  intros Hnd. unfold build_paths. rewrite build_paths_loop; [reflexivity|].
  simpl. now apply NoDup_paths.
Qed.

Lemma keys_build_paths data :
  NoDup (keys data) -> keys (build_paths data) = map path_of (keys (included data)).
Proof.
  intros Hnd. rewrite build_paths_included by exact Hnd. unfold keys.
  rewrite !map_map. reflexivity.
Qed.

Lemma NoDup_build_paths data : NoDup (keys data) -> NoDup (keys (build_paths data)).
Proof.
  intros Hnd. rewrite keys_build_paths by exact Hnd.
  apply NoDup_paths. now apply NoDup_keys_filter.
Qed.

(** The entry of a path: the item of the operation when it is included,
    nothing otherwise. *)
Lemma build_paths_get data n :
  NoDup (keys data) ->
  dict_get (path_of n) (build_paths data) =
  match dict_get n data with
  | Some d => if include d then Some (path_item n d) else None
  | None => None
  end.
Proof.
  intros Hnd. destruct (dict_get n data) as [d|] eqn:G.
  - destruct (include d) eqn:I.
    + apply In_dict_get; [now apply NoDup_build_paths|].
      rewrite build_paths_included by exact Hnd.
      apply in_map_iff. exists (n, d). split; [reflexivity|].
      apply filter_In. split; [now apply dict_get_In|exact I].
    + apply dict_get_None. rewrite keys_build_paths by exact Hnd.
      rewrite in_map_iff. intros (m & E & Hm). apply path_of_inj in E. subst m.
      unfold keys in Hm. apply in_map_iff in Hm as ([n' d'] & E & Hin). simpl in E. subst n'.
      apply filter_In in Hin as [Hin I']. simpl in I'.
      rewrite (In_dict_get _ _ _ Hnd Hin) in G. congruence.
  - apply dict_get_None. rewrite keys_build_paths by exact Hnd.
    rewrite in_map_iff. intros (m & E & Hm). apply path_of_inj in E. subst m.
    apply keys_filter_In in Hm. now apply dict_get_None in G.
Qed.

(** C6. The paths of the assembled document are the paths of the included
    operations, one each and no other: an included operation has its item
    under the slash and its name, with its tag, its request schema under
    application/json and one response, 200, with its response schema; an
    excluded operation has no path. For A included and B excluded the paths
    are /A alone. *)
Theorem paths_of_included_operations :
  (forall data,
     NoDup (keys data) ->
     json_at ["paths"] (openapi_spec data) = Some (JObj (build_paths data)) /\
     keys (build_paths data) = map (fun n => ("/" ++ n)%string) (keys (included data)) /\
     NoDup (keys (build_paths data)) /\
     (forall n d, In (n, d) data -> include d = false ->
                  dict_get ("/" ++ n)%string (build_paths data) = None) /\
     (forall n d, In (n, d) data -> include d = true ->
        exists item,
          dict_get ("/" ++ n)%string (build_paths data) = Some item /\
          json_at ["post"; "tags"] item = Some (JArr [JStr (tag d)]) /\
          json_at ["post"; "requestBody"] item =
            Some (JObj [("content",
                         JObj [("application/json", JObj [("schema", request d)])])]) /\
          json_at ["post"; "responses"] item =
            Some (JObj [("200",
                         JObj [("description", JStr "Success");
                               ("content",
                                JObj [("application/json",
                                       JObj [("schema", response d)])])])]))) /\
  keys (build_paths example_ops) = ["/A"].
Proof.
  split; [|reflexivity].
  intros data Hnd. split; [reflexivity|]. split; [exact (keys_build_paths data Hnd)|].
  split; [exact (NoDup_build_paths data Hnd)|]. split.
  - intros n d Hin I. change ("/" ++ n)%string with (path_of n).
    rewrite build_paths_get, (In_dict_get _ _ _ Hnd Hin), I by exact Hnd. reflexivity.
  - intros n d Hin I. exists (path_item n d). split; [|repeat split].
    change ("/" ++ n)%string with (path_of n).
    rewrite build_paths_get, (In_dict_get _ _ _ Hnd Hin), I by exact Hnd. reflexivity.
Qed.

(** The two operations of the example: a path for A, none for B. *)
Lemma paths_of_included_operations_witness :
  dict_get "/A" (build_paths example_ops) <> None /\
  dict_get "/B" (build_paths example_ops) = None.
Proof.
  destruct (proj1 paths_of_included_operations example_ops) as (_ & _ & _ & Hout & Hin).
  - repeat constructor; simpl; intuition discriminate.
  - split.
    + destruct (Hin "A" {| request := string_schema; response := integer_schema;
                           include := true; tag := "Service" |}) as (item & Hitem & _).
      * simpl. now left.
      * reflexivity.
      * change ("/" ++ "A")%string with "/A" in Hitem. rewrite Hitem. discriminate.
    + apply (Hout "B" {| request := string_schema; response := string_schema;
                         include := false; tag := "Service" |}).
      * simpl. right. now left.
      * reflexivity.
Defined.

(** C10. A text that does not parse puts the whole stored entry of its
    operation back: the request, the response and the include flag after the
    edit stage are the stored ones, whatever the other text and the checkbox
    of the same submission hold, and the document is assembled from the
    stored entry. *)
Theorem failed_edit_discards_submission
  (loads : string -> result json) ui data op info :
  NoDup (keys data) ->
  dict_get op data = Some info ->
  (exists e, loads (req_json (ui op)) = Raise e) \/
  (exists e, loads (res_json (ui op)) = Raise e) ->
  dict_get op (fst (edit_stage loads ui data)) = Some info /\
  (forall entry,
     dict_get op (fst (edit_stage loads ui data)) = Some entry ->
     request entry = request info /\ response entry = response info /\
     include entry = include info) /\
  dict_get ("/" ++ op)%string (build_paths (fst (edit_stage loads ui data))) =
    (if include info then Some (path_item op info) else None).
Proof.
  intros Hnd Hget Hfail.
  destruct (parsed_entry_fails loads (ui op) info Hfail) as (e & He & _).
  assert (dict_get op (fst (edit_stage loads ui data)) = Some info) as Hkept.
  { rewrite edit_stage_get, Hget by exact Hnd. simpl. unfold edited_entry. now rewrite He. }
  split; [exact Hkept|]. split.
  - intros entry. rewrite Hkept. now intros [= <-].
  - change ("/" ++ op)%string with (path_of op). rewrite build_paths_get.
    + now rewrite Hkept.
    + now rewrite edit_stage_keys.
Qed.

(** The request text of A is cut short; its response text is valid and new
    and its checkbox is cleared. The entry of A stays the stored one, still
    included, and A keeps its path. *)
Lemma failed_edit_discards_submission_witness :
  json_loads (res_json (broken_submission "A")) = Ok (JObj []) /\
  is_included (broken_submission "A") = false /\
  dict_get "A" (fst (edit_stage json_loads broken_submission example_ops)) =
    Some {| request := string_schema; response := integer_schema;
            include := true; tag := "Service" |} /\
  dict_get "/A" (build_paths (fst (edit_stage json_loads broken_submission example_ops))) <> None.
Proof.
  split; [reflexivity|]. split; [reflexivity|].
  destruct (failed_edit_discards_submission json_loads broken_submission example_ops "A"
              {| request := string_schema; response := integer_schema;
                 include := true; tag := "Service" |}) as (Hkept & _ & Hpath).
  - repeat constructor; simpl; intuition discriminate.
  - reflexivity.
  - left. exists JSONDecodeError. reflexivity.
  - split; [exact Hkept|].
    change ("/" ++ "A")%string with "/A" in Hpath. rewrite Hpath. discriminate.
Defined.

(** The same submission: the error of A is shown, and B, whose texts parse,
    takes its submission. *)
Lemma failed_edit_keeps_record_witness :
  dict_get "A" (fst (edit_stage json_loads broken_submission example_ops)) =
    dict_get "A" example_ops /\
  In ("A", JSONDecodeError) (snd (edit_stage json_loads broken_submission example_ops)) /\
  dict_get "B" (fst (edit_stage json_loads broken_submission example_ops)) =
    Some {| request := string_schema; response := string_schema;
            include := false; tag := "Service" |}.
Proof.
  destruct (failed_edit_keeps_record json_loads broken_submission example_ops "A"
              {| request := string_schema; response := integer_schema;
                 include := true; tag := "Service" |}) as (Hkept & (e & Herr & He) & _).
  - repeat constructor; simpl; intuition discriminate.
  - reflexivity.
  - left. exists JSONDecodeError. reflexivity.
  - split; [exact Hkept|]. split; [|reflexivity].
    destruct He as [He|He]; vm_compute in He; [|discriminate].
    injection He as <-. exact Herr.
Defined.

(** *** The names of the stored operations stay distinct *)

Lemma extract_op_NoDup depth g tg ops op ops' :
  extract_op depth g tg ops op = Ok ops' -> NoDup (keys ops) -> NoDup (keys ops').
Proof.
  unfold extract_op.
  destruct (zeep_type_to_json_schema depth g (req_type op)); simpl; [|discriminate].
  destruct (zeep_type_to_json_schema depth g (res_type op)); simpl; [|discriminate].
  intros [= <-] H. now apply NoDup_keys_dict_set.
Qed.


Lemma extract_ops_NoDup depth c ops : extract_ops depth c = Ok ops -> NoDup (keys ops).
Proof.
  unfold extract_ops. intros H.
  refine (for_each_invariant (fun ops => NoDup (keys ops)) _ _ _ _ _ H _); [|constructor].
  intros s sv s'. apply (for_each_invariant (fun ops => NoDup (keys ops))).
  intros s1 port s1'. apply (for_each_invariant (fun ops => NoDup (keys ops))).
  intros s2 op s2'. apply extract_op_NoDup.
Qed.

(** Every run of the script keeps the names of the stored operations
    distinct. *)
Lemma run_NoDup loads ev st :
  NoDup (keys (op_data st)) -> NoDup (keys (op_data (run loads ev st))).
Proof.
  intros H. unfold run.
  destruct ev as [|depth loaded|ui| |]; [simpl; constructor|..];
    (destruct (String.eqb (step st) "upload");
     [|destruct (String.eqb (step st) "edit");
       [|destruct (String.eqb (step st) "visualize")]]); try exact H.
  unfold parse_operations. destruct loaded as [c|]; simpl; [|exact H].
  destruct (extract_ops depth c) eqn:E; simpl; [|exact H].
  exact (extract_ops_NoDup _ _ _ E).
Qed.

(* ===================================================================== *)
(** ** The JSON text: writing, then reading *)
(* ===================================================================== *)

Lemma json_induction (P : json -> Prop) :
  P JNull -> (forall b, P (JBool b)) -> (forall z, P (JInt z)) -> (forall s, P (JStr s)) ->
  (forall items, Forall P items -> P (JArr items)) ->
  (forall members, Forall (fun kv => P (snd kv)) members -> P (JObj members)) ->
  forall j, P j.
Proof.
  intros Hn Hb Hi Hs Ha Ho. fix IH 1.
  intros [|b|z|s|items|members]; [exact Hn|apply Hb|apply Hi|apply Hs|..].
  - apply Ha. revert items. fix IHl 1. intros [|x xs]; constructor; [apply IH|apply IHl].
  - apply Ho. revert members. fix IHl 1. intros [|kv ms]; constructor; [apply IH|apply IHl].
Qed.

Lemma schema_value_items items :
  schema_value (JArr items) <-> Forall schema_value items.
Proof.
  cbn [schema_value]. induction items as [|x xs IH]; simpl.
  - split; auto.
  - rewrite IH. split; [intros [H1 H2]; now constructor|now inversion 1].
Qed.

Lemma schema_value_members members :
  schema_value (JObj members) <->
  NoDup (keys members) /\ Forall (fun kv => schema_value (snd kv)) members.
Proof.
  cbn [schema_value].
  assert (fold_right (fun kv rest => schema_value (snd kv) /\ rest) True members <->
          Forall (fun kv => schema_value (snd kv)) members) as ->; [|tauto].
  induction members as [|x xs IH]; simpl.
  - split; auto.
  - rewrite IH. split; [intros [H1 H2]; now constructor|now inversion 1].
Qed.

(** *** Strings *)

Lemma scan_string_escape_char c tail :
  scan_string (escape_char c ++ tail) = push c (scan_string tail).
Proof. destruct c as [[] [] [] [] [] [] [] []]; reflexivity. Qed.

Lemma scan_string_escape s rest :
  scan_string (escape s (String dquote rest)) = Ok (s, rest).
Proof.
  induction s as [|c s IH]; [reflexivity|].
  cbn [escape]. now rewrite scan_string_escape_char, IH.
Qed.

(** *** White space *)

Lemma skip_ws_spaces n rest : skip_ws (spaces n rest) = skip_ws rest.
Proof. induction n; simpl; auto. Qed.

Lemma skip_ws_other c s : is_space c = false -> skip_ws (String c s) = String c s.
Proof. intros H. simpl. now rewrite H. Qed.

Lemma skip_ws_newline_indent level rest : skip_ws (newline_indent level rest) = skip_ws rest.
Proof. unfold newline_indent. cbn [skip_ws]. simpl is_space. cbv iota. apply skip_ws_spaces. Qed.

(** The text of a value starts with a character that is no white space and
    no closing bracket. *)
Lemma dumps_at_start level v rest :
  schema_value v ->
  exists c s, dumps_at level v rest = String c s /\
              is_space c = false /\ Ascii.eqb c "]" = false.
Proof.
  destruct v as [|[]|z|s|[|x xs]|[|kv ms]]; simpl; intros H;
    try contradiction; eexists; eexists; (split; [reflexivity|split; reflexivity]).
Qed.

Lemma skip_ws_dumps_at level v rest :
  schema_value v -> skip_ws (dumps_at level v rest) = dumps_at level v rest.
Proof.
  intros H. destruct (dumps_at_start level v rest H) as (c & s & -> & Hc & _).
  now apply skip_ws_other.
Qed.

(** *** The decoder, one step at a time *)

Lemma parse_value_quote fuel s1 :
  parse_value (S fuel) (String dquote s1) =
  ('(str, rest) <- scan_string s1 ;; Ok (JStr str, rest)).
Proof. reflexivity. Qed.

Lemma parse_value_bracket fuel s1 :
  parse_value (S fuel) (String "[" s1) =
  match skip_ws s1 with
  | EmptyString => Raise JSONDecodeError
  | String c s2 =>
      if Ascii.eqb c "]" then Ok (JArr [], s2) else parse_items fuel [] (String c s2)
  end.
Proof. reflexivity. Qed.

Lemma parse_value_brace fuel s1 :
  parse_value (S fuel) (String "{" s1) =
  match skip_ws s1 with
  | EmptyString => Raise JSONDecodeError
  | String c s2 =>
      if Ascii.eqb c "}" then Ok (JObj [], s2) else parse_members fuel [] (String c s2)
  end.
Proof. reflexivity. Qed.

Lemma parse_items_step fuel values s :
  parse_items (S fuel) values s =
  ('(value, r1) <- parse_value fuel s ;;
   match skip_ws r1 with
   | String "]" r2 => Ok (JArr (values ++ [value]), r2)
   | String "," r2 => parse_items fuel (values ++ [value]) (skip_ws r2)
   | _ => Raise JSONDecodeError
   end).
Proof. reflexivity. Qed.

Lemma parse_members_step fuel pairs s1 :
  parse_members (S fuel) pairs (String dquote s1) =
  ('(key, r1) <- scan_string s1 ;;
   match skip_ws r1 with
   | String ":" r2 =>
       '(value, r3) <- parse_value fuel (skip_ws r2) ;;
       match skip_ws r3 with
       | String "}" r4 => Ok (JObj (dict_set key value pairs), r4)
       | String "," r4 => parse_members fuel (dict_set key value pairs) (skip_ws r4)
       | _ => Raise JSONDecodeError
       end
   | _ => Raise JSONDecodeError
   end).
Proof. reflexivity. Qed.

(** *** Reading back what was written *)

Lemma items_read_back level rest xs :
  Forall reads_back xs -> Forall schema_value xs ->
  forall x values fuel,
    reads_back x -> schema_value x ->
    S (json_size x + fold_right (fun y n => S (json_size y + n)) 0 xs) <= fuel ->
    parse_items fuel values
      (dumps_at (S level) x
         (fold_right
            (fun y more => String "," (newline_indent (S level) (dumps_at (S level) y more)))
            (newline_indent level (String "]" rest)) xs)) =
    Ok (JArr (values ++ x :: xs), rest).
Proof.
  induction xs as [|y ys IH]; intros Hback Hval x values fuel Hx Hvx Hfuel;
    (destruct fuel as [|fuel]; [lia|]); rewrite parse_items_step;
    rewrite (Hx Hvx) by (simpl in Hfuel; lia); cbn [bind fold_right].
  - rewrite skip_ws_newline_indent. reflexivity.
  - inversion Hback as [|? ? Hy Hys]; subst. inversion Hval as [|? ? Hvy Hvys]; subst.
    rewrite (skip_ws_other "," _ eq_refl). cbv iota beta.
    rewrite skip_ws_newline_indent, skip_ws_dumps_at by exact Hvy.
    rewrite (IH Hys Hvys y (values ++ [x]) fuel Hy Hvy) by (simpl in Hfuel; lia).
    now rewrite <- app_assoc.
Qed.

Lemma members_read_back level rest ms :
  Forall (fun kv => reads_back (snd kv)) ms ->
  Forall (fun kv => schema_value (snd kv)) ms ->
  forall k v pairs fuel,
    reads_back v -> schema_value v ->
    NoDup (keys pairs ++ k :: keys ms) ->
    S (json_size v + fold_right (fun kv n => S (json_size (snd kv) + n)) 0 ms) <= fuel ->
    parse_members fuel pairs
      (encode_string k (String ":" (String " "
         (dumps_at (S level) v
            (fold_right
               (fun kv' more =>
                  String ","
                    (newline_indent (S level)
                      (encode_string (fst kv') (String ":" (String " "
                        (dumps_at (S level) (snd kv') more))))))
               (newline_indent level (String "}" rest)) ms))))) =
    Ok (JObj (pairs ++ (k, v) :: ms), rest).
Proof.
  induction ms as [|[k' v'] ms IH]; intros Hback Hval k v pairs fuel Hv Hvv Hnd Hfuel;
    (destruct fuel as [|fuel]; [lia|]); unfold encode_string at 1;
    rewrite parse_members_step, scan_string_escape; cbn [bind];
    rewrite (skip_ws_other ":" _ eq_refl); cbv iota beta;
    change (skip_ws (String " " ?s)) with (skip_ws s);
    rewrite skip_ws_dumps_at by exact Hvv;
    rewrite (Hv Hvv) by (simpl in Hfuel; lia); cbn [bind fold_right];
    (rewrite dict_set_fresh;
     [|intros Hin; apply NoDup_remove_2 in Hnd; apply Hnd, in_or_app; now left]).
  - rewrite skip_ws_newline_indent. reflexivity.
  - inversion Hback as [|? ? Hy Hys]; subst. inversion Hval as [|? ? Hvy Hvys]; subst.
    simpl in Hy, Hvy. cbn [fst snd].
    rewrite (skip_ws_other "," _ eq_refl). cbv iota beta.
    rewrite skip_ws_newline_indent.
    unfold encode_string at 1. rewrite (skip_ws_other dquote _ eq_refl).
    fold (encode_string k' (String ":" (String " " (dumps_at (S level) v'
      (fold_right
         (fun kv' more =>
            String ","
              (newline_indent (S level)
                (encode_string (fst kv') (String ":" (String " "
                  (dumps_at (S level) (snd kv') more))))))
         (newline_indent level (String "}" rest)) ms))))).
    rewrite (IH Hys Hvys k' v' (pairs ++ [(k, v)]) fuel Hy Hvy).
    + now rewrite <- app_assoc.
    + unfold keys in *. rewrite map_app. simpl. rewrite <- app_assoc. exact Hnd.
    + simpl in Hfuel. lia.
Qed.

(** Every value without a number and with distinct keys is read back. *)
Lemma dumps_at_read_back v : reads_back v.
Proof.
  induction v as [|b|z|s|items IH|members IH] using json_induction;
    intros Hv level fuel rest Hfuel;
    (destruct fuel as [|fuel]; [simpl in Hfuel; lia|]).
  - reflexivity.
  - destruct b; reflexivity.
  - contradiction.
  - cbn [dumps_at]. unfold encode_string. rewrite parse_value_quote, scan_string_escape.
    reflexivity.
  - destruct items as [|x xs]; [reflexivity|].
    apply schema_value_items in Hv. inversion Hv as [|? ? Hvx Hvxs]; subst.
    inversion IH as [|? ? Hx Hxs]; subst.
    cbn [dumps_at]. rewrite parse_value_bracket, skip_ws_newline_indent.
    rewrite skip_ws_dumps_at by exact Hvx.
    destruct (dumps_at_start (S level) x
                (fold_right
                   (fun y more =>
                      String "," (newline_indent (S level) (dumps_at (S level) y more)))
                   (newline_indent level (String "]" rest)) xs) Hvx)
      as (c & s' & E & _ & Hc).
    rewrite E, Hc, <- E.
    apply (items_read_back level rest xs Hxs Hvxs x [] fuel Hx Hvx).
    simpl in Hfuel. lia.
  - destruct members as [|[k v] ms]; [reflexivity|].
    apply schema_value_members in Hv. destruct Hv as [Hnd Hv].
    inversion Hv as [|? ? Hvx Hvxs]; subst. inversion IH as [|? ? Hx Hxs]; subst.
    cbn [dumps_at fst snd]. rewrite parse_value_brace, skip_ws_newline_indent.
    unfold encode_string at 1. rewrite (skip_ws_other dquote _ eq_refl).
    change (Ascii.eqb dquote "}") with false. cbv iota.
    apply (members_read_back level rest ms Hxs Hvxs k v [] fuel Hx Hvx Hnd).
    simpl in Hfuel. lia.
Qed.

(** *** The text is at least as long as the value is large *)

Lemma length_append (a b : string) :
  String.length (a ++ b) = String.length a + String.length b.
Proof. induction a; simpl; auto. Qed.

Lemma length_escape s rest : String.length rest <= String.length (escape s rest).
Proof.
  induction s as [|c s IH]; simpl; [lia|]. rewrite length_append. lia.
Qed.

Lemma length_encode_string s rest :
  2 + String.length rest <= String.length (encode_string s rest).
Proof.
  unfold encode_string. simpl.
  pose proof (length_escape s (String dquote rest)) as H. simpl in H. lia.
Qed.

Lemma length_spaces n rest : String.length (spaces n rest) = n + String.length rest.
Proof. induction n; simpl; auto. Qed.

Lemma length_newline_indent level rest :
  String.length (newline_indent level rest) = S (2 * level + String.length rest).
Proof. unfold newline_indent. cbn [String.length]. now rewrite length_spaces. Qed.

Lemma Forall_mp {A : Type} (P Q : A -> Prop) (l : list A) :
  Forall (fun x => P x -> Q x) l -> Forall P l -> Forall Q l.
Proof. induction 1; inversion 1; subst; constructor; auto. Qed.

Lemma length_more_items level rest xs :
  Forall long_enough xs ->
  fold_right (fun y n => S (json_size y + n)) 0 xs + String.length rest <=
  String.length
    (fold_right
       (fun y more => String "," (newline_indent (S level) (dumps_at (S level) y more)))
       (newline_indent level (String "]" rest)) xs).
Proof.
  induction 1 as [|y ys Hy Hys IH]; cbn [fold_right].
  - rewrite length_newline_indent. simpl. lia.
  - cbn [String.length]. rewrite length_newline_indent.
    pose proof (Hy (S level)
                  (fold_right
                     (fun y more =>
                        String "," (newline_indent (S level) (dumps_at (S level) y more)))
                     (newline_indent level (String "]" rest)) ys)).
    lia.
Qed.

Lemma length_more_members level rest ms :
  Forall (fun kv => long_enough (snd kv)) ms ->
  fold_right (fun kv n => S (json_size (snd kv) + n)) 0 ms + String.length rest <=
  String.length
    (fold_right
       (fun kv' more =>
          String ","
            (newline_indent (S level)
              (encode_string (fst kv') (String ":" (String " "
                (dumps_at (S level) (snd kv') more))))))
       (newline_indent level (String "}" rest)) ms).
Proof.
  induction 1 as [|y ys Hy Hys IH]; cbn [fold_right].
  - rewrite length_newline_indent. simpl. lia.
  - cbn [String.length]. rewrite length_newline_indent.
    match goal with
    | |- context [encode_string ?a (String ":" (String " " (dumps_at ?l ?w ?m)))] =>
        pose proof (length_encode_string a (String ":" (String " " (dumps_at l w m))));
        pose proof (Hy l m)
    end.
    cbn [String.length] in *. lia.
Qed.

Lemma length_dumps_at v : schema_value v -> long_enough v.
Proof.
  induction v as [|b|z|s|items IH|members IH] using json_induction; intros Hv level rest.
  - simpl. lia.
  - destruct b; simpl; lia.
  - contradiction.
  - cbn [dumps_at json_size]. pose proof (length_encode_string s rest). lia.
  - apply schema_value_items in Hv. pose proof (Forall_mp _ _ _ IH Hv) as Hall.
    destruct items as [|x xs]; [simpl; lia|].
    inversion Hall as [|? ? Hx Hxs]; subst.
    pose proof (length_more_items level rest xs Hxs).
    cbn [dumps_at json_size fold_right String.length]. rewrite length_newline_indent.
    pose proof (Hx (S level)
                  (fold_right
                     (fun y more =>
                        String "," (newline_indent (S level) (dumps_at (S level) y more)))
                     (newline_indent level (String "]" rest)) xs)).
    lia.
  - apply schema_value_members in Hv. destruct Hv as [_ Hv].
    pose proof (Forall_mp _ _ _ IH Hv) as Hall.
    destruct members as [|[k v] ms]; [simpl; lia|].
    inversion Hall as [|? ? Hx Hxs]; subst. simpl in Hx.
    pose proof (length_more_members level rest ms Hxs).
    cbn [dumps_at json_size fold_right String.length fst snd]. rewrite length_newline_indent.
    match goal with
    | |- context [encode_string ?a (String ":" (String " " (dumps_at ?l ?w ?m)))] =>
        pose proof (length_encode_string a (String ":" (String " " (dumps_at l w m))));
        pose proof (Hx l m)
    end.
    cbn [String.length] in *. lia.
Qed.

(** [json.loads(json.dumps(v, indent=2))] is [v]. *)
Lemma loads_dumps v : schema_value v -> json_loads (json_dumps v) = Ok v.
Proof.
  intros Hv. unfold json_loads, json_dumps.
  rewrite skip_ws_dumps_at by exact Hv.
  rewrite (dumps_at_read_back v Hv).
  - reflexivity.
  - pose proof (length_dumps_at v Hv 0 ""). lia.
Qed.

(** *** The compiler's schemas are such values *)

Lemma Forall_dict_set (P : json -> Prop) k v (d : dict json) :
  P v -> Forall (fun kv => P (snd kv)) d -> Forall (fun kv => P (snd kv)) (dict_set k v d).
Proof.
  intros Hv. induction 1 as [|[k' v'] d Hx Hd IH]; simpl.
  - now repeat constructor.
  - destruct (String.eqb k k'); constructor; auto.
Qed.












(** *** The edit stage on widgets left as they are *)



(* ===================================================================== *)
(** ** More of the schema compiler *)
(* ===================================================================== *)

Lemma keys_dict_set_add {V : Type} k (v : V) (d : dict V) :
  keys (dict_set k v d) = add_key (keys d) k.
Proof. apply keys_dict_set. Qed.

Lemma in_add_key l k x : In x (add_key l k) <-> In x l \/ x = k.
Proof.
  unfold add_key. destruct (existsb (String.eqb k) l) eqn:E.
  - apply existsb_eqb_In in E. split; [auto|]. intros [H| ->]; auto.
  - rewrite in_app_iff. simpl. intuition.
Qed.

Lemma in_fold_add_key ks l x : In x (fold_left add_key ks l) <-> In x l \/ In x ks.
Proof.
  revert l. induction ks as [|k ks IH]; intros l; simpl; [tauto|].
  rewrite IH, in_add_key. intuition.
Qed.





Lemma elements_keys compile elems props req props' req' :
  for_each (element_step compile) elems (props, req) = Ok (props', req') ->
  keys props' = fold_left add_key (keys elems) (keys props).
Proof.
  revert props req. induction elems as [|[n el] elems IH]; intros props req.
  - now intros [= <- <-].
  - rewrite for_each_cons. unfold element_step at 1.
    destruct (compile (el_type el)) as [child|]; cbn [bind]; [|discriminate].
    destruct (is_required (min_occurs el)) as [b|]; cbn [bind]; [|discriminate].
    intros H. rewrite (IH _ _ H).
    destruct (is_repeated (max_occurs el)); rewrite keys_dict_set_add; reflexivity.
Qed.

(** What the body of the [try] returns: the two loops, then [_value]. *)
Lemma complex_body_loops compile zt props req :
  complex_body compile zt = Ok (props, req) ->
  exists aprops eprops,
    for_each attribute_step (attributes zt) [] = Ok aprops /\
    for_each (element_step compile) (elements zt) (aprops, []) = Ok (eprops, req) /\
    props = match attributes zt, elements zt with
            | _ :: _, [] => dict_set "_value" value_schema eprops
            | _, _ => eprops
            end.
Proof.
  unfold complex_body.
  destruct (for_each attribute_step (attributes zt) []) as [aprops|] eqn:A; simpl;
    [|discriminate].
  destruct (for_each (element_step compile) (elements zt) (aprops, [])) as [[p r]|] eqn:E;
    simpl; [|discriminate].
  intros H. exists aprops, p.
  destruct (attributes zt), (elements zt); injection H as <- <-; auto.
Qed.











Lemma required_names_keys elems n : In n (required_names elems) -> In n (keys elems).
Proof.
  unfold required_names, keys. rewrite !in_map_iff.
  intros (x & <- & H). apply filter_In in H as [H _]. eauto.
Qed.



(** *** The shape of the compiled schema *)

Lemma json_schema_primitive n : json_schema (map_xsd_to_json_type n).
Proof.
  unfold map_xsd_to_json_type.
  repeat match goal with |- context [if ?b then _ else _] => destruct b end;
    apply schema_primitive; try reflexivity; repeat constructor.
  now exists "date-time".
Qed.

Lemma json_schema_string : json_schema string_schema.
Proof. apply schema_primitive; [reflexivity|constructor]. Qed.

Lemma json_schema_value : json_schema value_schema.
Proof.
  apply schema_primitive; [reflexivity|]. repeat constructor.
  now exists "The text content of the element".
Qed.

Lemma json_schema_object_schema props req :
  NoDup (keys props) -> Forall (fun kv => json_schema (snd kv)) props ->
  incl req (keys props) -> json_schema (object_schema props req).
Proof.
  intros Hnd Hall Hreq. pose proof (schema_object props req Hnd Hall Hreq) as H.
  unfold object_schema. now destruct req.
Qed.

(** The properties the loops build are schemas. *)
Lemma attributes_json_schema attrs init props :
  for_each attribute_step attrs init = Ok props ->
  Forall (fun kv => json_schema (snd kv)) init ->
  Forall (fun kv => json_schema (snd kv)) props.
Proof.
  apply (for_each_invariant (fun d => Forall (fun kv => json_schema (snd kv)) d)).
  intros s [n a] s'. unfold attribute_step.
  destruct a as [ty|]; simpl; [|discriminate].
  intros [= <-] Hs. apply Forall_dict_set; [apply json_schema_primitive|exact Hs].
Qed.

Lemma elements_json_schema compile elems st st' :
  (forall ty child, compile ty = Ok child -> json_schema child) ->
  for_each (element_step compile) elems st = Ok st' ->
  Forall (fun kv => json_schema (snd kv)) (fst st) ->
  Forall (fun kv => json_schema (snd kv)) (fst st').
Proof.
  intros Hc.
  apply (for_each_invariant (fun st => Forall (fun kv => json_schema (snd kv)) (fst st))).
  intros [props req] [n el] s'. unfold element_step.
  destruct (compile (el_type el)) as [child|] eqn:C; cbn [bind]; [|discriminate].
  destruct (is_required (min_occurs el)) as [b|]; cbn [bind]; [|discriminate].
  intros [= <-] Hs. apply Hc in C. cbn [fst] in *.
  destruct (is_repeated (max_occurs el)); apply Forall_dict_set; auto.
  now apply schema_array.
Qed.

(** The required list of the body of the [try] names properties only. *)
Lemma complex_body_required compile zt props req :
  complex_body compile zt = Ok (props, req) -> incl req (keys props).
Proof.
  intros Hbody.
  destruct (complex_body_loops _ _ _ _ Hbody) as (aprops & eprops & A & E & Hp).
  pose proof (elements_required _ _ _ _ _ _ E) as Hreq. simpl in Hreq. subst req.
  intros n Hn. apply required_names_keys in Hn. apply elements_keys in E.
  assert (In n (keys eprops)) as He by (rewrite E; apply in_fold_add_key; now right).
  subst props. destruct (attributes zt), (elements zt); auto.
  rewrite keys_dict_set_add. apply in_add_key. now left.
Qed.

(** X5. Whatever the type graph and the room on the stack, a schema the
    compiler returns has one of the three shapes of a schema all the way
    down: a primitive type, an array of a schema, or an object whose
    properties have distinct names and are schemas and whose required list
    names properties only. *)
Theorem compiled_schema_shape depth g ty s :
  zeep_type_to_json_schema depth g ty = Ok s -> json_schema s.
Proof.
  revert ty s. induction depth as [|d IH]; intros ty s; [discriminate|].
  destruct ty as [t|].
  - assert (complex (g t) \/ (elements (g t) = [] /\ attributes (g t) = [])) as [Hc|[He Ha]].
    { unfold complex. destruct (elements (g t)), (attributes (g t)); auto;
        left; (left + right); discriminate. }
    + rewrite compile_complex by exact Hc.
      destruct (complex_body (zeep_type_to_json_schema d g) (g t)) as [[props req]|] eqn:B.
      * intros [= <-]. apply json_schema_object_schema.
        -- exact (complex_body_NoDup _ _ _ _ B).
        -- destruct (complex_body_loops _ _ _ _ B) as (aprops & eprops & A & E & ->).
           apply attributes_json_schema in A; [|constructor].
           apply (elements_json_schema _ _ _ _ (fun ty child => IH ty child)) in E;
             [|exact A].
           cbn [fst] in E. destruct (attributes (g t)), (elements (g t)); auto.
           apply Forall_dict_set; [apply json_schema_value|exact E].
        -- exact (complex_body_required _ _ _ _ B).
      * intros [= <-]. apply json_schema_string.
    + simpl. rewrite He, Ha. intros [= <-]. apply json_schema_primitive.
  - intros [= <-]. apply (schema_object [] []); [constructor|constructor|].
    intros x [].
Qed.

(** The schema of the self-referential type, cut by the stack after four
    frames, is a schema. *)
Lemma compiled_schema_shape_witness : json_schema (self_schema 3).
Proof. apply (compiled_schema_shape 4 self_graph (Some 0)). reflexivity. Defined.

(* ===================================================================== *)
(** ** More of the primitive type mapper *)
(* ===================================================================== *)

Lemma lower_append a b : lower (a ++ b) = (lower a ++ lower b)%string.
Proof. induction a as [|c a IH]; simpl; [|rewrite IH]; reflexivity. Qed.

Lemma string_append_assoc (a b c : string) : ((a ++ b) ++ c = a ++ (b ++ c))%string.
Proof. induction a as [|x a IH]; simpl; [|rewrite IH]; reflexivity. Qed.

Lemma occurs_in_append x s before after :
  occurs_in x s -> occurs_in x (before ++ s ++ after).
Proof.
  intros (b & a & ->). exists (before ++ b)%string, (a ++ after)%string.
  now rewrite !string_append_assoc.
Qed.

Lemma mentions_append keywords n before after :
  mentions keywords n -> mentions keywords (before ++ n ++ after).
Proof.
  intros (k & Hin & H). exists k. split; [exact Hin|].
  rewrite !lower_append. now apply occurs_in_append.
Qed.

Lemma mapper_integer_iff n :
  map_xsd_to_json_type n = integer_schema <-> mentions integer_family n.
Proof.
  rewrite <- any_in_mentions. unfold map_xsd_to_json_type. fold integer_family.
  destruct (any_in integer_family (lower n)); [tauto|].
  split; [|discriminate].
  repeat match goal with |- context [if ?b then _ else _] => destruct b end;
    unfold integer_schema, number_schema, boolean_schema, date_time_schema, string_schema;
    discriminate.
Qed.

(** X6. A name the mapper takes for an integer stays an integer inside any
    longer name, whatever stands before and after it and in whatever case:
    the integer keywords are looked for first and anywhere in the name. The
    keywords [integer] and [datetime] add nothing, a name that holds one
    holds [int] or [date] already. *)
Theorem integer_names_dominate :
  (forall n before after,
     map_xsd_to_json_type n = integer_schema ->
     map_xsd_to_json_type (before ++ n ++ after) = integer_schema) /\
  (forall n, map_xsd_to_json_type n = integer_schema <->
             mentions ["int"; "long"; "short"] n) /\
  (forall n, mentions date_family n <-> mentions ["date"] n).
Proof.
  split; [|split].
  - intros n before after H. apply mapper_integer_iff. apply mentions_append.
    now apply mapper_integer_iff.
  - intros n. rewrite mapper_integer_iff. unfold integer_family, mentions. split.
    + intros (k & [<-|[<-|[<-|[<-|[]]]]] & H); try (eexists; split; [|exact H]; simpl; tauto).
      exists "int". split; [simpl; tauto|].
      destruct H as (b & a & H). exists b, ("eger" ++ a)%string. exact H.
    + intros (k & [<-|[<-|[<-|[]]]] & H); eexists; (split; [|exact H]); simpl; tauto.
  - intros n. unfold date_family, mentions. split.
    + intros (k & [<-|[<-|[]]] & H); exists "date"; (split; [simpl; tauto|]); [|exact H].
      destruct H as (b & a & H). exists b, ("time" ++ a)%string. exact H.
    + intros (k & [<-|[]] & H). exists "date". split; [simpl; tauto|exact H].
Qed.

(* ===================================================================== *)
(** ** The parse button *)
(* ===================================================================== *)





Section ExtractLoop.
Variables (d : nat) (g : graph).







End ExtractLoop.





(* ===================================================================== *)
(** ** More of the session *)
(* ===================================================================== *)

Lemma run_in_edit loads ev st :
  step st = "edit" ->
  run loads ev st =
  match ev with
  | StartNewProject => restart_process st
  | GenerateSwagger ui =>
      {| step := "visualize";
         op_data := op_data st;
         final_spec := Some (openapi_spec (fst (edit_stage loads ui (op_data st)))) |}
  | _ => st
  end.
Proof. intros H. unfold run. rewrite H. now destruct ev. Qed.

Lemma run_in_visualize loads ev st :
  step st = "visualize" ->
  run loads ev st =
  match ev with
  | StartNewProject => restart_process st
  | BackToEditor => {| step := "edit"; op_data := op_data st; final_spec := final_spec st |}
  | _ => st
  end.
Proof. intros H. unfold run. rewrite H. now destruct ev. Qed.

Lemma run_in_upload loads ev st :
  step st = "upload" ->
  run loads ev st =
  match ev with
  | StartNewProject => restart_process st
  | ParseOperations depth loaded => parse_operations depth loaded st
  | _ => st
  end.
Proof. intros H. unfold run. rewrite H. now destruct ev. Qed.

(** X9. In every state the script can reach from a fresh session the step
    is one of upload, edit and visualize. In the upload stage nothing is
    stored, neither operations nor a document; in the visualize stage there is
    a document; and a stored document is always the assembly of the stored
    operations under some submission of the edit stage. The names of the
    stored operations are distinct. *)
Theorem reachable_states loads st :
  reachable loads st ->
  NoDup (keys (op_data st)) /\
  document_of_stored loads st /\
  ((step st = "upload" /\ op_data st = [] /\ final_spec st = None) \/
   step st = "edit" \/
   (step st = "visualize" /\ final_spec st <> None)).
Proof.
  induction 1 as [|ev st Hst (Hnd & Hdoc & Hstep)].
  - split; [constructor|]. split; [now left|]. left. repeat split.
  - split; [now apply run_NoDup|].
    assert (ev = StartNewProject \/ ev <> StartNewProject) as [->|Hev]
      by (destruct ev; auto; right; discriminate).
    { split; [now left|]. left. repeat split. }
    destruct Hstep as [(Hs & Hops & Hspec)|[Hs|(Hs & Hspec)]].
    + rewrite (run_in_upload _ _ _ Hs).
      destruct ev as [|depth loaded|ui| |]; try congruence;
        try (split; [exact Hdoc|]; left; now repeat split).
      unfold parse_operations.
      destruct (c <- loaded ;; extract_ops depth c) as [ops|];
        [|split; [exact Hdoc|]; left; now repeat split].
      split; [left; exact Hspec|]. right. now left.
    + rewrite (run_in_edit _ _ _ Hs).
      destruct ev as [|depth loaded|ui| |]; try congruence;
        try (split; [exact Hdoc|]; right; now left).
      split; [right; now exists ui|]. right. right. split; [reflexivity|discriminate].
    + rewrite (run_in_visualize _ _ _ Hs).
      destruct ev as [|depth loaded|ui| |]; try congruence;
        try (split; [exact Hdoc|]; right; right; now split).
      split; [exact Hdoc|]. right. now left.
Qed.

(** A session that parsed the example WSDL and generated a document. *)
Lemma reachable_states_witness :
  final_spec
    (run json_loads (GenerateSwagger broken_submission)
       (run json_loads (ParseOperations 2 (Ok example_client)) initial_state)) <> None.
Proof.
  destruct (reachable_states json_loads
              (run json_loads (GenerateSwagger broken_submission)
                 (run json_loads (ParseOperations 2 (Ok example_client)) initial_state)))
    as (_ & _ & [(Hs & _)|[Hs|(_ & Hspec)]]).
  - repeat constructor.
  - discriminate.
  - discriminate.
  - exact Hspec.
Defined.

(** X10. Once the session has left the upload stage the stored operations
    change no more, whatever buttons are pressed and whatever is submitted,
    until the restart button is pressed: a submission of the edit stage goes
    into the generated document and is not stored, and the parse button does
    nothing. *)
Theorem stored_operations_frozen loads events st :
  step st = "edit" \/ step st = "visualize" ->
  ~ In StartNewProject events ->
  op_data (fold_left (fun s ev => run loads ev s) events st) = op_data st /\
  (step (fold_left (fun s ev => run loads ev s) events st) = "edit" \/
   step (fold_left (fun s ev => run loads ev s) events st) = "visualize").
Proof.
  revert st. induction events as [|ev events IH]; intros st Hs Hev; [now split|].
  cbn [fold_left].
  assert (op_data (run loads ev st) = op_data st /\
          (step (run loads ev st) = "edit" \/ step (run loads ev st) = "visualize"))
    as [Hops Hs'].
  { destruct Hs as [Hs|Hs]; [rewrite (run_in_edit _ _ _ Hs)|rewrite (run_in_visualize _ _ _ Hs)];
      destruct ev; simpl; auto; exfalso; apply Hev; now left. }
  destruct (IH (run loads ev st) Hs') as [H1 H2].
  - intros Hin. apply Hev. now right.
  - split; [now rewrite H1|exact H2].
Qed.

(** After the example WSDL is parsed: a broken submission, a way back, a
    second parse and another submission leave both operations as they were
    compiled. *)
Lemma stored_operations_frozen_witness :
  op_data
    (fold_left (fun s ev => run json_loads ev s)
       [GenerateSwagger broken_submission; BackToEditor;
        ParseOperations 2 (Ok example_client); GenerateSwagger string_submission]
       (run json_loads (ParseOperations 2 (Ok example_client)) initial_state)) =
  op_data (run json_loads (ParseOperations 2 (Ok example_client)) initial_state).
Proof.
  apply (stored_operations_frozen json_loads).
  - left. reflexivity.
  - simpl. intros [H|[H|[H|[H|[]]]]]; discriminate.
Defined.

(* ===================================================================== *)
(** ** More of the edit stage *)
(* ===================================================================== *)

(** The errors the loop shows: one for each operation whose submission
    raises, in the order of the operations. *)
Lemma edit_loop_shown loads ui data updated errors :
  snd (fold_left (edit_step loads ui) data (updated, errors)) =
  errors ++
  flat_map (fun item =>
              match parsed_entry loads (ui (fst item)) (snd item) with
              | Ok _ => []
              | Raise e => [(fst item, e)]
              end) data.
Proof.
  revert updated errors. induction data as [|[k info] data IH]; intros updated errors.
  - simpl. now rewrite app_nil_r.
  - cbn [fold_left edit_step flat_map fst snd].
    destruct (parsed_entry loads (ui k) info) as [entry|e]; rewrite IH; [reflexivity|].
    now rewrite <- app_assoc.
Qed.

(** X11. The errors of the edit stage are the operations whose request or
    response text does not parse, one error each and in the order of the
    operations, with the exception the parser raised; so an operation has an
    error exactly when its submission was put aside. *)
Theorem edit_errors_are_failures loads ui data :
  snd (edit_stage loads ui data) =
    flat_map (fun item =>
                match parsed_entry loads (ui (fst item)) (snd item) with
                | Ok _ => []
                | Raise e => [(fst item, e)]
                end) data /\
  (forall op e,
     In (op, e) (snd (edit_stage loads ui data)) <->
     exists info, In (op, info) data /\ parsed_entry loads (ui op) info = Raise e) /\
  length (snd (edit_stage loads ui data)) <= length data.
Proof.
  assert (snd (edit_stage loads ui data) =
          flat_map (fun item =>
                      match parsed_entry loads (ui (fst item)) (snd item) with
                      | Ok _ => []
                      | Raise e => [(fst item, e)]
                      end) data) as Hshown.
  { unfold edit_stage. now rewrite edit_loop_shown. }
  rewrite Hshown. split; [reflexivity|]. split.
  - intros op e. rewrite in_flat_map. split.
    + intros ([k info] & Hin & H). cbn [fst snd] in H.
      destruct (parsed_entry loads (ui k) info) as [entry|e'] eqn:P; [contradiction|].
      destruct H as [[= -> ->]|[]]. eauto.
    + intros (info & Hin & P). exists (op, info). split; [exact Hin|].
      cbn [fst snd]. rewrite P. now left.
  - clear Hshown. induction data as [|[k info] data IH]; simpl; [lia|].
    destruct (parsed_entry loads (ui k) info); simpl; lia.
Qed.



(** X13. The edit stage neither adds, drops, renames nor reorders an
    operation, and it never changes a tag: the entries after it bear the names
    of the stored entries in the same order, each with the tag of the stored
    entry of its name. *)
Theorem edit_keeps_names_and_tags loads ui data :
  NoDup (keys data) ->
  keys (fst (edit_stage loads ui data)) = keys data /\
  forall op entry,
    dict_get op (fst (edit_stage loads ui data)) = Some entry ->
    exists info, dict_get op data = Some info /\ tag entry = tag info.
Proof.
  intros Hnd. split; [now apply edit_stage_keys|].
  intros op entry. rewrite edit_stage_get by exact Hnd.
  destruct (dict_get op data) as [info|]; simpl; [|discriminate].
  intros [= <-]. exists info. split; [reflexivity|]. unfold edited_entry.
  destruct (parsed_entry loads (ui op) info) as [entry|] eqn:P; [|reflexivity].
  now apply parsed_entry_ok in P.
Qed.

(** The two example operations under the broken submission. *)
Lemma edit_keeps_names_and_tags_witness :
  keys (fst (edit_stage json_loads broken_submission example_ops)) = ["A"; "B"].
Proof.
  destruct (edit_keeps_names_and_tags json_loads broken_submission example_ops) as [Hk _].
  - repeat constructor; simpl; intuition discriminate.
  - exact Hk.
Defined.

(* ===================================================================== *)
(** ** More of the document *)
(* ===================================================================== *)

Lemma schema_value_path_item n d :
  schema_value (request d) -> schema_value (response d) -> schema_value (path_item n d).
Proof.
  intros Hreq Hres. unfold path_item, json_content. cbn [schema_value keys map fst snd fold_right].
  repeat split; auto; repeat constructor; simpl; intuition discriminate.
Qed.

Lemma schema_value_openapi_spec data :
  NoDup (keys data) ->
  (forall n d, In (n, d) data -> schema_value (request d) /\ schema_value (response d)) ->
  schema_value (openapi_spec data).
Proof.
  intros Hnd Hall.
  assert (schema_value (JObj (build_paths data))) as Hpaths.
  { apply schema_value_members. split; [now apply NoDup_build_paths|].
    rewrite build_paths_included by exact Hnd. apply Forall_forall.
    intros kv Hin. apply in_map_iff in Hin as ([n d] & <- & Hin). cbn [fst snd].
    apply filter_In in Hin as [Hin _]. destruct (Hall n d Hin).
    now apply schema_value_path_item. }
  unfold openapi_spec. apply schema_value_members. split.
  - repeat constructor; simpl; intuition discriminate.
  - constructor; [exact I|]. constructor; [|constructor; [exact Hpaths|constructor]].
    apply schema_value_members. split; [|repeat constructor].
    repeat constructor; simpl; intuition discriminate.
Qed.

(** X14. The text of the document that the visualize stage offers for
    download reads back as the document, when the operations have distinct
    names and their schemas hold strings, lists and dictionaries only, as the
    compiled schemas do. *)
Theorem document_round_trip data :
  NoDup (keys data) ->
  (forall n d, In (n, d) data -> schema_value (request d) /\ schema_value (response d)) ->
  json_loads (json_dumps (openapi_spec data)) = Ok (openapi_spec data).
Proof. intros Hnd Hall. apply loads_dumps. now apply schema_value_openapi_spec. Qed.

(** The document of the two example operations. *)
Lemma document_round_trip_witness :
  json_loads (json_dumps (openapi_spec example_ops)) = Ok (openapi_spec example_ops).
Proof.
  apply document_round_trip.
  - repeat constructor; simpl; intuition discriminate.
  - intros n d [[= <- <-]|[[= <- <-]|[]]]; simpl;
      repeat split; repeat constructor; simpl; intuition discriminate.
Defined.

(** X15. The document has no path exactly when no operation is included;
    the paths are then an empty dictionary and the document is generated all
    the same. *)
Theorem no_included_operation data :
  NoDup (keys data) ->
  (build_paths data = [] <-> forall n d, In (n, d) data -> include d = false) /\
  ((forall n d, In (n, d) data -> include d = false) ->
   json_at ["paths"] (openapi_spec data) = Some (JObj [])).
Proof.
  intros Hnd.
  assert (build_paths data = [] <-> forall n d, In (n, d) data -> include d = false) as Hiff.
  { rewrite build_paths_included by exact Hnd. unfold included. split.
    - intros E n d Hin. destruct (include d) eqn:I; [|reflexivity].
      assert (In (n, d) (filter (fun item => include (snd item)) data)) as Hf
        by (apply filter_In; split; [exact Hin|exact I]).
      apply (in_map (fun item => (path_of (fst item), path_item (fst item) (snd item)))) in Hf.
      rewrite E in Hf. contradiction.
    - intros Hall. clear Hnd. induction data as [|[n d] data IH]; [reflexivity|].
      cbn [filter snd]. rewrite (Hall n d (or_introl eq_refl)).
      apply IH. intros n' d' Hin. apply (Hall n' d'). now right. }
  split; [exact Hiff|]. intros Hall. apply Hiff in Hall. unfold openapi_spec.
  cbn [json_at dict_get]. simpl. now rewrite Hall.
Qed.

(** Two operations, both excluded. *)
Lemma no_included_operation_witness :
  json_at ["paths"]
    (openapi_spec [("A", {| request := string_schema; response := string_schema;
                            include := false; tag := "Service" |});
                   ("B", {| request := string_schema; response := string_schema;
                            include := false; tag := "Service" |})]) = Some (JObj []).
Proof.
  apply no_included_operation.
  - repeat constructor; simpl; intuition discriminate.
  - intros n d [[= <- <-]|[[= <- <-]|[]]]; reflexivity.
Defined.

(* ===================================================================== *)
(** ** From the parse button to the document *)
(* ===================================================================== *)






(* ===================================================================== *)
(** ** The widgets of the edit stage *)
(* ===================================================================== *)

Lemma in_widget_keys data k :
  In k (widget_keys data) ->
  exists n, In n (keys data) /\ (k = check_key n \/ k = req_key n \/ k = res_key n).
Proof.
  unfold widget_keys. rewrite in_flat_map. intros ([n info] & Hin & Hk). exists n. split.
  - change n with (fst (n, info)). now apply in_map.
  - simpl in Hk. intuition.
Qed.

(** X17. No two widgets of the edit stage have the same key: the keys of
    the checkbox and of the two text areas of an operation differ from one
    another and from the keys of every other operation, whatever the names of
    the operations are. *)
Theorem widget_keys_distinct data : NoDup (keys data) -> NoDup (widget_keys data).
Proof.
  induction data as [|[n info] data IH]; intros Hnd; [constructor|].
  inversion Hnd as [|? ? Hn Hrest]; subst.
  assert (forall k, (k = check_key n \/ k = req_key n \/ k = res_key n) ->
                    ~ In k (widget_keys data)) as Hfresh.
  { intros k Hk Hin. apply in_widget_keys in Hin as (m & Hm & Hkm).
    assert (n = m) as E; [|subst m; contradiction].
    unfold check_key, req_key, res_key in *. simpl in *.
    destruct Hk as [Hk|[Hk|Hk]], Hkm as [H|[H|H]]; congruence. }
  change (widget_keys ((n, info) :: data))
    with (check_key n :: req_key n :: res_key n :: widget_keys data).
  repeat constructor; auto; simpl; unfold check_key, req_key, res_key; simpl;
    intuition (try discriminate);
    match goal with H : In _ (widget_keys data) |- _ => revert H; apply Hfresh end;
    unfold check_key, req_key, res_key; simpl; auto.
Qed.

(** The six widgets of the two example operations. *)
Lemma widget_keys_distinct_witness :
  NoDup ["check_A"; "req_A"; "res_A"; "check_B"; "req_B"; "res_B"].
Proof.
  apply (widget_keys_distinct example_ops).
  repeat constructor; simpl; intuition discriminate.
Defined.
